(** * pngme: a shallow embedding of the chunk codec and the PNG container

    The three Rust modules [chunk_type], [chunk] and [png] are modelled
    function by function.  A Rust [u8] is a [Byte.byte]; numeric work on it
    goes through its value as a [Z].  A Rust function that may panic (slice
    indexing out of range, [split_at] past the end, [unwrap] on [Err])
    returns an [outcome], whose [Panic] case stands for the panic; the
    [anyhow::Error] values the code produces are the constructors of
    [error]. *)

From Stdlib Require Import ZArith List Bool Lia.
From Stdlib Require Import Strings.Byte.
Import ListNotations.
Open Scope Z_scope.

(** ** Bytes and Rust results *)

(** The value of a [u8]. *)
Definition u8 (b : byte) : Z := Z.of_N (Byte.to_N b).

(** Truncating cast [z as u8]. *)
Definition byte_of_Z (z : Z) : byte :=
  match Byte.of_N (Z.to_N (z mod 256)) with
  | Some b => b
  | None => x00
  end.

(** The error values the code builds with [anyhow] or propagates with [?]. *)
Inductive error : Type :=
| ErrUtf8                          (* std::str::Utf8Error *)
| ErrTryFromSlice                  (* TryFromSliceError: slice of wrong length *)
| ErrCrcMismatch (stored computed : Z)  (* "crc input .. didn't match calculated .." *)
| ErrSignature (signature : list byte)  (* "signature .. does not match expected" *)
| ErrNotFound (code : list byte)        (* "chunk .. not found" *)
| ErrInvalidChunkType.                  (* "chunk type: .. is invalid" *)

(** A Rust computation: a value, an error value, or a panic. *)
Inductive outcome (A : Type) : Type :=
| Ok (a : A)
| Err (e : error)
| Panic.
Arguments Ok {A} a.
Arguments Err {A} e.
Arguments Panic {A}.

(** The [?] operator (and the propagation of a panic). *)
Definition bind {A B} (m : outcome A) (k : A -> outcome B) : outcome B :=
  match m with
  | Ok a => k a
  | Err e => Err e
  | Panic => Panic
  end.
Notation "x <- m ;; k" := (bind m (fun x => k))
  (at level 61, m at next level, right associativity).

(** [slice.split_at(n)]: panics when [n > slice.len()]. *)
Definition split_at {A} (n : nat) (l : list A) : outcome (list A * list A) :=
  if Nat.leb n (length l) then Ok (firstn n l, skipn n l) else Panic.

(** [slice[i..j]]: panics when [i > j] or [j > slice.len()]. *)
Definition slice {A} (l : list A) (i j : nat) : outcome (list A) :=
  if Nat.leb i j && Nat.leb j (length l)
  then Ok (firstn (j - i) (skipn i l)) else Panic.

(** [slice[i..]]: panics when [i > slice.len()]. *)
Definition slice_from {A} (l : list A) (i : nat) : outcome (list A) :=
  if Nat.leb i (length l) then Ok (skipn i l) else Panic.

(** [<[u8; 4]>::try_from(slice)]. *)
Definition u8x4 : Type := (byte * byte * byte * byte)%type.

Definition array4 (l : list byte) : outcome u8x4 :=
  match l with
  | [a; b; c; d] => Ok (a, b, c, d)
  | _ => Err ErrTryFromSlice
  end.

Definition array4_list (a : u8x4) : list byte :=
  let '(b0, b1, b2, b3) := a in [b0; b1; b2; b3].

(** [u32::from_be_bytes]. *)
Definition u32_from_be_bytes (a : u8x4) : Z :=
  let '(b0, b1, b2, b3) := a in
  u8 b0 * 16777216 + u8 b1 * 65536 + u8 b2 * 256 + u8 b3.

(** [u32::to_be_bytes] (for a value in the [u32] range). *)
Definition u32_to_be_bytes (n : Z) : list byte :=
  [byte_of_Z (Z.shiftr n 24); byte_of_Z (Z.shiftr n 16);
   byte_of_Z (Z.shiftr n 8); byte_of_Z n].

(** ** UTF-8 validation, as [std::str::from_utf8] performs it *)

Definition in_range (lo hi x : Z) : bool := (lo <=? x) && (x <=? hi).

(** A continuation byte [0x80..=0xBF]. *)
Definition cont (x : Z) : bool := in_range 128 191 x.

(** The admissible range of the second byte of a 3- or 4-byte sequence,
    which excludes overlong forms, surrogates and code points past
    U+10FFFF. *)
Definition second_ok (x0 x1 : Z) : bool :=
  if x0 =? 224 then in_range 160 191 x1
  else if x0 =? 237 then in_range 128 159 x1
  else if x0 =? 240 then in_range 144 191 x1
  else if x0 =? 244 then in_range 128 143 x1
  else cont x1.

Fixpoint utf8_valid (l : list byte) : bool :=
  match l with
  | [] => true
  | b0 :: r1 =>
    let x0 := u8 b0 in
    if x0 <? 128 then utf8_valid r1 else
    match r1 with
    | [] => false
    | b1 :: r2 =>
      let x1 := u8 b1 in
      if in_range 194 223 x0 then cont x1 && utf8_valid r2 else
      match r2 with
      | [] => false
      | b2 :: r3 =>
        let x2 := u8 b2 in
        if in_range 224 239 x0 then
          second_ok x0 x1 && cont x2 && utf8_valid r3 else
        match r3 with
        | [] => false
        | b3 :: r4 =>
          if in_range 240 244 x0 then
            second_ok x0 x1 && cont x2 && cont (u8 b3) && utf8_valid r4
          else false
        end
      end
    end
  end.

(** [str::from_utf8], returning the string as its bytes. *)
Definition from_utf8 (l : list byte) : outcome (list byte) :=
  if utf8_valid l then Ok l else Err ErrUtf8.

(** ** Module [chunk_type] *)

Record ChunkType : Type := mkChunkType { raw : u8x4 }.

(** [ChunkType::bytes]. *)
Definition bytes (ct : ChunkType) : list byte := array4_list (raw ct).

(** [impl TryFrom<[u8; 4]> for ChunkType]. *)
Definition chunk_type_try_from (value : u8x4) : outcome ChunkType :=
  match from_utf8 (array4_list value) with
  | Ok _ => Ok (mkChunkType value)
  | Err e => Err e
  | Panic => Panic
  end.

Definition is_ascii_lowercase (b : byte) : bool := in_range 97 122 (u8 b).
Definition is_ascii_uppercase (b : byte) : bool := in_range 65 90 (u8 b).

(** [impl FromStr for ChunkType]; the string is given by its bytes. *)
Definition chunk_type_from_str (s : list byte) : outcome ChunkType :=
  bytes4 <- array4 s ;;
  if fold_left (fun valid b =>
                  (is_ascii_lowercase b || is_ascii_uppercase b) && valid)
               (array4_list bytes4) true
  then Ok (mkChunkType bytes4)
  else Err ErrInvalidChunkType.

(** [impl Display for ChunkType]: the bytes as text, or ["invalid"]. *)
Definition invalid_text : list byte := [x69; x6e; x76; x61; x6c; x69; x64].

Definition chunk_type_display (ct : ChunkType) : list byte :=
  match from_utf8 (bytes ct) with
  | Ok s => s
  | _ => invalid_text
  end.

(** [byte >> 5 & 1], which Rust parses as [(byte >> 5) & 1]. *)
Definition bit5 (b : byte) : Z := Z.land (Z.shiftr (u8 b) 5) 1.

Definition byte_at (ct : ChunkType) (i : nat) : byte := nth i (bytes ct) x00.

Definition is_critical (ct : ChunkType) : bool := bit5 (byte_at ct 0) =? 0.
Definition is_public (ct : ChunkType) : bool := bit5 (byte_at ct 1) =? 0.
Definition is_reserved_bit_valid (ct : ChunkType) : bool :=
  bit5 (byte_at ct 2) =? 0.
Definition is_safe_to_copy (ct : ChunkType) : bool := bit5 (byte_at ct 3) =? 1.

Definition is_valid (ct : ChunkType) : bool :=
  fold_left (fun valid b =>
               (is_ascii_lowercase b || is_ascii_uppercase b) && valid)
            (bytes ct) true
  && is_reserved_bit_valid ct.

(** ** The [crc] crate: [Crc::<u32>::new(&CRC_32_ISO_HDLC).checksum(bytes)]

    The crate is parameterised by a catalogue [Algorithm]; for a reflected
    algorithm ([refin = true], the only kind this program instantiates) it
    keeps the register bit-reversed and processes one byte per step as
    [crc32(poly, true, (crc ^ byte) & 0xFF) ^ (crc >> 8)]. *)

Record Algorithm : Type := {
  width : Z; poly : Z; init : Z; refin : bool; refout : bool;
  xorout : Z; check : Z; residue : Z }.

Definition CRC_32_ISO_HDLC : Algorithm := {|
  width := 32; poly := 79764919 (* 0x04c11db7 *);
  init := 4294967295 (* 0xffffffff *); refin := true; refout := true;
  xorout := 4294967295 (* 0xffffffff *); check := 3421780262 (* 0xcbf43926 *);
  residue := 3736805603 (* 0xdebb20e3 *) |}.

(** Bit reversal of the low [w] bits of [x]; [reflect 32] is
    [u32::reverse_bits]. *)
Fixpoint reflect (w : nat) (x : Z) : Z :=
  match w with
  | O => 0
  | S w' =>
    if Z.testbit x 0 then Z.setbit (reflect w' (Z.shiftr x 1)) (Z.of_nat w')
    else reflect w' (Z.shiftr x 1)
  end.

Definition reverse_bits (x : Z) : Z := reflect 32 x.

(** [util::crc32(poly, true, value)]: eight reflected shift steps. *)
Definition crc32_bit (poly : Z) (value : Z) : Z :=
  Z.lxor (Z.shiftr value 1) (Z.land value 1 * poly).

Definition crc32_value (poly : Z) (value : Z) : Z :=
  Nat.iter 8 (crc32_bit poly) value.

(** [crc32::init], [update] and [finalize] for a reflected algorithm. *)
Definition crc_init (alg : Algorithm) (initial : Z) : Z :=
  Z.shiftr (reverse_bits initial) (32 - width alg).

Definition crc_poly (alg : Algorithm) : Z :=
  Z.shiftr (reverse_bits (poly alg)) (32 - width alg).

Definition crc_update (alg : Algorithm) (crc : Z) (bs : list byte) : Z :=
  fold_left (fun crc b =>
               Z.lxor (crc32_value (crc_poly alg) (Z.land (Z.lxor crc (u8 b)) 255))
                      (Z.shiftr crc 8))
            bs crc.

Definition crc_finalize (alg : Algorithm) (crc : Z) : Z :=
  let crc := if xorb (refin alg) (refout alg) then reverse_bits crc else crc in
  let crc := if refout alg then crc else Z.shiftr crc (32 - width alg) in
  Z.lxor crc (xorout alg).

Definition checksum (alg : Algorithm) (bs : list byte) : Z :=
  crc_finalize alg (crc_update alg (crc_init alg (init alg)) bs).

(** The parametric CRC of the catalogue (the Williams model): a
    [width]-bit register fed most significant bit first, input bytes and
    the result reflected when [refin]/[refout] say so.  This definition
    follows the textbook, not the crate, and is compared with [checksum]. *)
Definition catalogue_bit (alg : Algorithm) (reg : Z) : Z :=
  let shifted := Z.land (Z.shiftl reg 1) (Z.ones (width alg)) in
  if Z.testbit reg (width alg - 1) then Z.lxor shifted (poly alg) else shifted.

Definition catalogue_byte (alg : Algorithm) (reg : Z) (b : byte) : Z :=
  let x := if refin alg then reflect 8 (u8 b) else u8 b in
  Nat.iter 8 (catalogue_bit alg) (Z.lxor reg (Z.shiftl x (width alg - 8))).

Definition catalogue_crc (alg : Algorithm) (bs : list byte) : Z :=
  let reg := fold_left (catalogue_byte alg) bs (init alg) in
  let reg := if refout alg then reflect (Z.to_nat (width alg)) reg else reg in
  Z.lxor reg (xorout alg).

(** ** Module [chunk] *)

(** A chunk; the [crc: Crc<u32>] field is always
    [Crc::new(&CRC_32_ISO_HDLC)] and is folded into [chunk_crc]. *)
Record Chunk : Type := mkChunk { chunk_type : ChunkType; data : list byte }.

(** [Chunk::length]: [self.data.len().try_into().unwrap()] into a [u32]. *)
Definition chunk_length (c : Chunk) : outcome Z :=
  let n := Z.of_nat (length (data c)) in
  if n <? 4294967296 then Ok n else Panic.

(** [Chunk::crc]: the checksum over the type bytes followed by the data. *)
Definition chunk_crc (c : Chunk) : Z :=
  checksum CRC_32_ISO_HDLC (bytes (chunk_type c) ++ data c).

(** [Chunk::data_as_string]. *)
Definition data_as_string (c : Chunk) : outcome (list byte) := from_utf8 (data c).

(** [Chunk::as_bytes]: length, type, data and checksum, big-endian. *)
Definition chunk_as_bytes (c : Chunk) : outcome (list byte) :=
  len <- chunk_length c ;;
  Ok (u32_to_be_bytes len ++ bytes (chunk_type c) ++ data c
        ++ u32_to_be_bytes (chunk_crc c)).

(** [impl TryFrom<&Vec<u8>> for Chunk], line by line.  The conversion
    [u32 -> usize] cannot fail on the 32- and 64-bit targets and is
    [Z.to_nat]. *)
Definition chunk_try_from (value : list byte) : outcome Chunk :=
  bind (split_at 8 value) (fun '(start, rest) =>
  s <- slice start 0 4 ;;
  length_bytes <- array4 s ;;
  let length := Z.to_nat (u32_from_be_bytes length_bytes) in
  s <- slice start 4 8 ;;
  chunk_type_bytes <- array4 s ;;
  chunk_type <- chunk_type_try_from chunk_type_bytes ;;
  bind (split_at length rest) (fun '(data, rest) =>
  let chunk := mkChunk chunk_type data in
  s <- slice rest 0 4 ;;
  crc_bytes <- array4 s ;;
  let crc := u32_from_be_bytes crc_bytes in
  if negb (crc =? chunk_crc chunk)
  then Err (ErrCrcMismatch crc (chunk_crc chunk))
  else Ok chunk)).

(** ** Module [png] *)

Record Png : Type := mkPng { chunks : list Chunk }.

Definition STANDARD_HEADER : list byte := [x89; x50; x4e; x47; x0d; x0a; x1a; x0a].

(** The text ["IEND"] as bytes. *)
Definition IEND : list byte := [x49; x45; x4e; x44].

Fixpoint bytes_eqb (a b : list byte) : bool :=
  match a, b with
  | [], [] => true
  | x :: a', y :: b' => Byte.eqb x y && bytes_eqb a' b'
  | _, _ => false
  end.

(** [Png::append_chunk]. *)
Definition append_chunk (png : Png) (c : Chunk) : Png := mkPng (chunks png ++ [c]).

(** The [loop] of [Png::try_from], from the cursor [index].  Each turn
    that goes on has consumed at least 12 bytes, so [S (length value)]
    turns, the fuel given by [png_try_from], are never exhausted. *)
Fixpoint png_loop (fuel : nat) (value : list byte) (index : nat) (png : Png)
  : outcome Png :=
  match fuel with
  | O => Panic
  | S fuel' =>
    chunk_vec <- slice_from value index ;;
    match chunk_try_from chunk_vec with
    | Ok chunk =>
      len <- chunk_length chunk ;;
      let index := (index + Z.to_nat len + 12)%nat in
      if bytes_eqb (chunk_type_display (chunk_type chunk)) IEND
      then Ok (append_chunk png chunk)
      else png_loop fuel' value index (append_chunk png chunk)
    | Err _ => Ok png         (* println!("Oops {}", err); break *)
    | Panic => Panic
    end
  end.

(** [impl TryFrom<&[u8]> for Png]. *)
Definition png_try_from (value : list byte) : outcome Png :=
  signature <- slice value 0 8 ;;
  if negb (bytes_eqb signature STANDARD_HEADER)
  then Err (ErrSignature signature)
  else png_loop (S (length value)) value 8 (mkPng []).

(** [Iterator::position]. *)
Fixpoint position {A} (f : A -> bool) (l : list A) : option nat :=
  match l with
  | [] => None
  | x :: l' => if f x then Some O else option_map S (position f l')
  end.

(** [Vec::remove]: panics when the index is out of range. *)
Definition vec_remove {A} (i : nat) (l : list A) : outcome (A * list A) :=
  match nth_error l i with
  | Some x => Ok (x, firstn i l ++ skipn (S i) l)
  | None => Panic
  end.

(** [format!("{}", chunk.chunk_type()) == chunk_type]. *)
Definition type_matches (code : list byte) (c : Chunk) : bool :=
  bytes_eqb (chunk_type_display (chunk_type c)) code.

(** [Png::remove_chunk] on [&mut self]: the removed chunk with the new
    state; on [Err] the state is left as it was. *)
Definition remove_chunk (png : Png) (code : list byte) : outcome (Chunk * Png) :=
  match position (type_matches code) (chunks png) with
  | Some index => bind (vec_remove index (chunks png))
                       (fun '(c, rest) => Ok (c, mkPng rest))
  | None => Err (ErrNotFound code)
  end.

(** [Png::chunk_by_type]. *)
Definition chunk_by_type (png : Png) (code : list byte) : option Chunk :=
  find (type_matches code) (chunks png).

(** [Png::as_bytes]: the signature, then every chunk's encoding. *)
Definition png_as_bytes (png : Png) : outcome (list byte) :=
  fold_left (fun acc c => b <- acc ;; cb <- chunk_as_bytes c ;; Ok (b ++ cb))
            (chunks png) (Ok STANDARD_HEADER).

(** [impl Display for Png]: each chunk's type followed by ["\r\n"],
    pushed onto an initially empty string. *)
Definition CRLF : list byte := [x0d; x0a].

Definition png_display (png : Png) : list byte :=
  fold_left (fun display c => display ++ (chunk_type_display (chunk_type c) ++ CRLF))
            (chunks png) [].

(** ** Invariants and helpers used in the proofs *)

(** Every chunk the code can build has a type that passed the UTF-8 check
    of [ChunkType::try_from] (or the ASCII-letter check of [from_str]) and,
    being decoded from a [u32] length, data of fewer than [2^32] bytes. *)
Definition chunk_ok (c : Chunk) : Prop :=
  utf8_valid (bytes (chunk_type c)) = true /\
  Z.of_nat (length (data c)) < 4294967296.

(** The bytes [Chunk::as_bytes] produces for such a chunk. *)
Definition chunk_encoding (c : Chunk) : list byte :=
  u32_to_be_bytes (Z.of_nat (length (data c))) ++ bytes (chunk_type c) ++ data c
    ++ u32_to_be_bytes (chunk_crc c).

(** The test [byte.is_ascii_lowercase() || byte.is_ascii_uppercase()]
    of [ChunkType::from_str] and [ChunkType::is_valid]. *)
Definition is_ascii_letter (b : byte) : bool :=
  is_ascii_lowercase b || is_ascii_uppercase b.

(** The loop's test [format!("{}", chunk.chunk_type()) == "IEND"]. *)
Definition is_iend (c : Chunk) : bool := type_matches IEND c.


(** ** Sample inputs *)

(** The chunk type ["RuSt"]: critical, private, reserved bit valid, safe
    to copy. *)
Definition RuSt : ChunkType := mkChunkType (x52, x75, x53, x74).

(** The ASCII bytes of ["123456789"]. *)
Definition check_input : list byte := [x31; x32; x33; x34; x35; x36; x37; x38; x39].

(** * Proofs *)

(** ** Byte and bit facts *)

Lemma u8_range (b : byte) : 0 <= u8 b < 256.
Proof.
  unfold u8. pose proof (Byte.to_N_bounded b). lia.
Qed.

Lemma u8_byte_of_Z (z : Z) : u8 (byte_of_Z z) = z mod 256.
Proof.
  unfold byte_of_Z, u8.
  pose proof (Z.mod_pos_bound z 256 ltac:(lia)) as Hb.
  destruct (Byte.of_N (Z.to_N (z mod 256))) as [b|] eqn:E.
  - apply Byte.to_of_N in E. rewrite E. lia.
  - apply Byte.of_N_None_iff in E. lia.
Qed.

Lemma byte_of_Z_u8 (b : byte) : byte_of_Z (u8 b) = b.
Proof.
  unfold byte_of_Z, u8. pose proof (Byte.to_N_bounded b).
  rewrite Z.mod_small by lia. rewrite N2Z.id, Byte.of_to_N. reflexivity.
Qed.

Lemma u8_inj (a b : byte) : u8 a = u8 b -> a = b.
Proof.
  intro H. rewrite <- (byte_of_Z_u8 a), <- (byte_of_Z_u8 b), H. reflexivity.
Qed.

Lemma u32_be_roundtrip (n : Z) :
  0 <= n < 4294967296 ->
  array4 (u32_to_be_bytes n) = Ok (byte_of_Z (Z.shiftr n 24), byte_of_Z (Z.shiftr n 16),
                                   byte_of_Z (Z.shiftr n 8), byte_of_Z n)
  /\ u32_from_be_bytes (byte_of_Z (Z.shiftr n 24), byte_of_Z (Z.shiftr n 16),
                        byte_of_Z (Z.shiftr n 8), byte_of_Z n) = n.
Proof.
  intro Hn. split; [reflexivity|]. cbn [u32_from_be_bytes].
  rewrite !u8_byte_of_Z, !Z.shiftr_div_pow2 by lia.
  change (2 ^ 24) with 16777216. change (2 ^ 16) with 65536. change (2 ^ 8) with 256.
  Z.div_mod_to_equations. lia.
Qed.

Lemma bytes_eqb_eq (a b : list byte) : bytes_eqb a b = true <-> a = b.
Proof.
  revert b; induction a as [|x a IH]; intros [|y b]; cbn; try (split; congruence).
  rewrite andb_true_iff, IH. split.
  - intros [H1 H2]. apply Byte.byte_dec_bl in H1. congruence.
  - intro H. injection H as -> ->. split; [apply Byte.byte_dec_lb|]; reflexivity.
Qed.

Lemma bytes_eqb_refl (a : list byte) : bytes_eqb a a = true.
Proof. apply bytes_eqb_eq. reflexivity. Qed.

Lemma land_1 (v : Z) : Z.land v 1 = if Z.testbit v 0 then 1 else 0.
Proof.
  change 1 with (Z.ones 1) at 1. rewrite Z.land_ones by lia.
  rewrite Z.bit0_odd. apply Zmod_odd.
Qed.

Lemma bit5_testbit (b : byte) : bit5 b = if Z.testbit (u8 b) 5 then 1 else 0.
Proof.
  unfold bit5. rewrite land_1, Z.shiftr_spec by lia. reflexivity.
Qed.

Lemma testbit5_div (x : Z) : 0 <= x -> Z.testbit x 5 = Z.odd (x / 32).
Proof.
  intro Hx. rewrite <- Z.bit0_odd.
  change 32 with (2 ^ 5). rewrite <- Z.shiftr_div_pow2 by lia.
  rewrite Z.shiftr_spec by lia. reflexivity.
Qed.

Lemma uppercase_bit5 (b : byte) :
  is_ascii_uppercase b = true -> Z.testbit (u8 b) 5 = false.
Proof.
  unfold is_ascii_uppercase, in_range. rewrite andb_true_iff, !Z.leb_le.
  intros H. rewrite testbit5_div by lia.
  replace (u8 b / 32) with 2 by (Z.div_mod_to_equations; lia). reflexivity.
Qed.

Lemma lowercase_bit5 (b : byte) :
  is_ascii_lowercase b = true -> Z.testbit (u8 b) 5 = true.
Proof.
  unfold is_ascii_lowercase, in_range. rewrite andb_true_iff, !Z.leb_le.
  intros H. rewrite testbit5_div by lia.
  replace (u8 b / 32) with 3 by (Z.div_mod_to_equations; lia). reflexivity.
Qed.

(** ** ChunkType *)

(** C7: each property query tests bit 5 of one raw byte of the chunk
    type: [is_critical] byte 0 clear, [is_public] byte 1 clear,
    [is_reserved_bit_valid] byte 2 clear, [is_safe_to_copy] byte 3 set;
    bit 5 is clear on an ASCII uppercase letter and set on a lowercase
    one. *)
Theorem chunk_type_property_bits (ct : ChunkType) :
  (is_critical ct = true <-> Z.testbit (u8 (byte_at ct 0)) 5 = false) /\
  (is_public ct = true <-> Z.testbit (u8 (byte_at ct 1)) 5 = false) /\
  (is_reserved_bit_valid ct = true <-> Z.testbit (u8 (byte_at ct 2)) 5 = false) /\
  (is_safe_to_copy ct = true <-> Z.testbit (u8 (byte_at ct 3)) 5 = true) /\
  (forall b, is_ascii_uppercase b = true -> Z.testbit (u8 b) 5 = false) /\
  (forall b, is_ascii_lowercase b = true -> Z.testbit (u8 b) 5 = true).
Proof.
  unfold is_critical, is_public, is_reserved_bit_valid, is_safe_to_copy.
  rewrite !bit5_testbit.
  split; [|split; [|split; [|split]]];
    try (destruct (Z.testbit _ 5); cbn; split; intro; congruence).
  split; [exact uppercase_bit5 | exact lowercase_bit5].
Qed.

Lemma chunk_type_property_bits_witness :
  (is_critical RuSt = true /\ is_public RuSt = false /\
   is_reserved_bit_valid RuSt = true /\ is_safe_to_copy RuSt = true) /\
  (is_ascii_uppercase x52 = true -> Z.testbit (u8 x52) 5 = false).
Proof.
  split.
  - split; [reflexivity|]. split; [reflexivity|]. split; reflexivity.
  - apply (chunk_type_property_bits RuSt).
Defined.

(** C6 (as amended): constructing a chunk type from four raw bytes
    succeeds exactly when they are valid UTF-8, and then keeps them
    verbatim; no ASCII-letter or reserved-bit check is made, so any four
    ASCII bytes are accepted. *)
Theorem chunk_type_try_from_utf8 (b : u8x4) :
  chunk_type_try_from b =
    (if utf8_valid (array4_list b) then Ok (mkChunkType b) else Err ErrUtf8) /\
  (Forall (fun x => u8 x < 128) (array4_list b) ->
   exists ct, chunk_type_try_from b = Ok ct /\ bytes ct = array4_list b).
Proof.
  unfold chunk_type_try_from, from_utf8. split.
  - destruct (utf8_valid (array4_list b)); reflexivity.
  - destruct b as [[[b0 b1] b2] b3]. cbn [array4_list].
    intro H. inversion_clear H as [|? ? H0 H1]. inversion_clear H1 as [|? ? H2 H3].
    inversion_clear H3 as [|? ? H4 H5]. inversion_clear H5 as [|? ? H6 _].
    cbn [utf8_valid]. rewrite !(proj2 (Z.ltb_lt _ _)) by assumption.
    exists (mkChunkType (b0, b1, b2, b3)). split; reflexivity.
Qed.

(** ["Ru1t"]: accepted although its third byte is not a letter, and
    reported invalid by [is_valid]. *)
Lemma chunk_type_try_from_utf8_witness :
  exists ct, chunk_type_try_from (x52, x75, x31, x74) = Ok ct /\
             bytes ct = [x52; x75; x31; x74] /\ is_valid ct = false.
Proof.
  destruct (proj2 (chunk_type_try_from_utf8 (x52, x75, x31, x74)))
    as [ct [H1 H2]].
  - repeat constructor; vm_compute; reflexivity.
  - exists ct. split; [exact H1|]. split; [exact H2|].
    rewrite (proj1 (chunk_type_try_from_utf8 _)) in H1. vm_compute in H1.
    injection H1 as <-. reflexivity.
Defined.

(** C6 as stated fails: a byte string that is not UTF-8 is refused. *)
Lemma chunk_type_try_from_rejects_non_utf8 :
  chunk_type_try_from (xff, x41, x41, x41) = Err ErrUtf8 /\
  ~ (forall b : u8x4, exists ct, chunk_type_try_from b = Ok ct /\
                                 bytes ct = array4_list b).
Proof.
  split; [reflexivity|].
  intro H. destruct (H (xff, x41, x41, x41)) as [ct [Hct _]].
  vm_compute in Hct. discriminate.
Qed.

(** ** The crate's CRC against the catalogue CRC *)

Lemma reflect_spec (w : nat) (x n : Z) :
  0 <= n ->
  Z.testbit (reflect w x) n = (n <? Z.of_nat w) && Z.testbit x (Z.of_nat w - 1 - n).
Proof.
  revert x. induction w as [|w IH]; intros x Hn; cbn [reflect].
  - rewrite Z.testbit_0_l. destruct (Z.ltb_spec n (Z.of_nat 0)); [lia|reflexivity].
  - assert (Hr : Z.testbit (reflect w (Z.shiftr x 1)) n =
                 (n <? Z.of_nat w) && Z.testbit x (Z.of_nat (S w) - 1 - n)).
    { rewrite IH by lia. destruct (Z.ltb_spec n (Z.of_nat w)); [|reflexivity].
      rewrite Z.shiftr_spec by lia. cbn [andb]. f_equal. lia. }
    destruct (Z.testbit x 0) eqn:E;
      [rewrite Z.setbit_eqb by lia|]; rewrite Hr;
      destruct (Z.eqb_spec (Z.of_nat w) n), (Z.ltb_spec n (Z.of_nat w)),
               (Z.ltb_spec n (Z.of_nat (S w))); try lia; cbn [andb orb];
      try reflexivity;
      replace (Z.of_nat (S w) - 1 - n) with 0 by lia; rewrite E; reflexivity.
Qed.

Lemma byte_bits_high (x n : Z) : 0 <= x < 256 -> 8 <= n -> Z.testbit x n = false.
Proof.
  intros Hx Hn. apply Z.bits_above_log2; [lia|].
  destruct (Z.eq_dec x 0) as [->|Hx0]; [cbn; lia|].
  apply Z.log2_lt_pow2; [lia|]. apply Z.lt_le_trans with (2 ^ 8); [cbn; lia|].
  apply Z.pow_le_mono_r; lia.
Qed.

Lemma catalogue_bit_H (r : Z) :
  catalogue_bit CRC_32_ISO_HDLC r =
    if Z.testbit r 31 then Z.lxor (Z.land (Z.shiftl r 1) (Z.ones 32)) 79764919
    else Z.land (Z.shiftl r 1) (Z.ones 32).
Proof. reflexivity. Qed.

Lemma crc_poly_H : crc_poly CRC_32_ISO_HDLC = reflect 32 79764919.
Proof. reflexivity. Qed.

Lemma crc32_bit_spec (p v : Z) :
  crc32_bit p v = if Z.testbit v 0 then Z.lxor (Z.shiftr v 1) p else Z.shiftr v 1.
Proof.
  unfold crc32_bit. rewrite land_1.
  destruct (Z.testbit v 0); rewrite ?Z.mul_1_l, ?Z.mul_0_l, ?Z.lxor_0_r; reflexivity.
Qed.

(** One register step: reflecting the register turns the most significant
    bit first step into the crate's least significant bit first step. *)
Lemma reflect_catalogue_bit (r : Z) :
  reflect 32 (catalogue_bit CRC_32_ISO_HDLC r) =
  crc32_bit (reflect 32 79764919) (reflect 32 r).
Proof.
  rewrite catalogue_bit_H, crc32_bit_spec.
  rewrite (reflect_spec 32 r 0) by lia.
  change (0 <? Z.of_nat 32) with true. change (Z.of_nat 32 - 1 - 0) with 31.
  cbn [andb].
  apply Z.bits_inj'. intros n Hn.
  assert (Hs : forall m, 0 <= m ->
            Z.testbit (Z.land (Z.shiftl r 1) (Z.ones 32)) m =
            (1 <=? m) && (m <? 32) && Z.testbit r (m - 1)).
  { intros m Hm. rewrite Z.land_spec, Z.shiftl_spec, Z.testbit_ones by lia.
    destruct (Z.leb_spec 1 m), (Z.ltb_spec m 32), (Z.leb_spec 0 m); try lia;
      cbn [andb]; rewrite ?andb_true_r, ?andb_false_r; try reflexivity.
    apply Z.testbit_neg_r; lia. }
  assert (Hsh : Z.testbit (Z.shiftr (reflect 32 r) 1) n =
                (n + 1 <? 32) && Z.testbit r (30 - n)).
  { rewrite Z.shiftr_spec, reflect_spec by lia. change (Z.of_nat 32) with 32.
    destruct (Z.ltb_spec (n + 1) 32); cbn [andb]; [|reflexivity].
    f_equal. lia. }
  assert (Hp : Z.testbit (reflect 32 79764919) n =
               (n <? 32) && Z.testbit 79764919 (31 - n)).
  { rewrite reflect_spec by lia. reflexivity. }
  rewrite reflect_spec by lia. change (Z.of_nat 32) with 32.
  destruct (Z.ltb_spec n 32); cbn [andb].
  - destruct (Z.testbit r 31);
      rewrite ?Z.lxor_spec, Hs, Hsh, ?Hp by lia;
      destruct (Z.leb_spec 1 (32 - 1 - n)), (Z.ltb_spec (32 - 1 - n) 32),
               (Z.ltb_spec (n + 1) 32), (Z.ltb_spec n 32); try lia; cbn [andb];
      try (replace (32 - 1 - n - 1) with (30 - n) by lia);
      try (replace (32 - 1 - n) with (31 - n) by lia);
      reflexivity.
  - destruct (Z.testbit r 31);
      rewrite ?Z.lxor_spec, Hsh, ?Hp by lia;
      destruct (Z.ltb_spec (n + 1) 32), (Z.ltb_spec n 32); try lia;
      reflexivity.
Qed.


(** Feeding a byte into the top of the register, seen through the
    reflection, is an xor at the bottom. *)
Lemma reflect_feed_byte (r x : Z) :
  0 <= x < 256 ->
  reflect 32 (Z.lxor r (Z.shiftl (reflect 8 x) 24)) = Z.lxor (reflect 32 r) x.
Proof.
  intro Hx. apply Z.bits_inj'. intros n Hn.
  rewrite Z.lxor_spec, !reflect_spec by lia. change (Z.of_nat 32) with 32.
  destruct (Z.ltb_spec n 32); cbn [andb].
  - rewrite Z.lxor_spec, Z.shiftl_spec by lia.
    destruct (Z.leb_spec 0 (32 - 1 - n - 24)).
    + rewrite reflect_spec by lia. change (Z.of_nat 8) with 8.
      destruct (Z.ltb_spec (32 - 1 - n - 24) 8); [|lia]. cbn [andb].
      replace (8 - 1 - (32 - 1 - n - 24)) with n by lia. reflexivity.
    + rewrite (Z.testbit_neg_r (reflect 8 x)) by lia. rewrite (byte_bits_high x n) by lia.
      reflexivity.
  - rewrite (byte_bits_high x n) by lia. reflexivity.
Qed.

Lemma crc32_bit_lxor (p a b : Z) :
  crc32_bit p (Z.lxor a b) = Z.lxor (crc32_bit p a) (crc32_bit p b).
Proof.
  rewrite !crc32_bit_spec, Z.lxor_spec, Z.shiftr_lxor.
  apply Z.bits_inj'. intros n Hn.
  destruct (Z.testbit a 0), (Z.testbit b 0); cbn [xorb];
    rewrite ?Z.lxor_spec; destruct (Z.testbit (Z.shiftr a 1) n),
    (Z.testbit (Z.shiftr b 1) n), (Z.testbit p n); reflexivity.
Qed.

Lemma crc32_iter_lxor (p a b : Z) (k : nat) :
  Nat.iter k (crc32_bit p) (Z.lxor a b) =
  Z.lxor (Nat.iter k (crc32_bit p) a) (Nat.iter k (crc32_bit p) b).
Proof.
  induction k as [|k IH]; [reflexivity|]. rewrite !Nat.iter_succ.
  rewrite IH. apply crc32_bit_lxor.
Qed.

Lemma crc32_bit_shiftl (p h m : Z) :
  1 <= m -> crc32_bit p (Z.shiftl h m) = Z.shiftl h (m - 1).
Proof.
  intro Hm. rewrite crc32_bit_spec, Z.shiftl_spec_low by lia.
  rewrite Z.shiftr_shiftl_l by lia. reflexivity.
Qed.

(** Eight steps move the bits above the low byte down by a byte. *)
Lemma crc32_value_high (p h : Z) : Nat.iter 8 (crc32_bit p) (Z.shiftl h 8) = h.
Proof.
  rewrite !Nat.iter_succ. change (Nat.iter 0 (crc32_bit p) (Z.shiftl h 8)) with (Z.shiftl h 8).
  rewrite !crc32_bit_shiftl by lia. cbn. apply Z.shiftl_0_r.
Qed.

(** The crate's byte step is eight single-bit steps on [crc ^ byte]. *)
Lemma crc_byte_step (p crc x : Z) :
  0 <= x < 256 ->
  Z.lxor (crc32_value p (Z.land (Z.lxor crc x) 255)) (Z.shiftr crc 8) =
  Nat.iter 8 (crc32_bit p) (Z.lxor crc x).
Proof.
  intro Hx.
  assert (Hsplit : Z.lxor crc x =
                   Z.lxor (Z.shiftl (Z.shiftr crc 8) 8) (Z.land (Z.lxor crc x) 255)).
  { apply Z.bits_inj'. intros n Hn.
    rewrite !Z.lxor_spec, Z.land_spec, Z.lxor_spec.
    change 255 with (Z.ones 8). rewrite Z.testbit_ones by lia.
    destruct (Z.ltb_spec n 8).
    - rewrite Z.shiftl_spec_low by lia. destruct (Z.leb_spec 0 n); [|lia].
      cbn. rewrite andb_true_r. reflexivity.
    - rewrite Z.shiftl_spec, Z.shiftr_spec by lia.
      rewrite (byte_bits_high x n) by lia.
      replace (n - 8 + 8) with n by lia. rewrite andb_false_r.
      destruct (Z.testbit crc n); reflexivity. }
  unfold crc32_value. rewrite Hsplit at 2. rewrite crc32_iter_lxor.
  rewrite crc32_value_high. apply Z.lxor_comm.
Qed.

Lemma reflect_catalogue_iter (k : nat) (r : Z) :
  reflect 32 (Nat.iter k (catalogue_bit CRC_32_ISO_HDLC) r) =
  Nat.iter k (crc32_bit (reflect 32 79764919)) (reflect 32 r).
Proof.
  induction k as [|k IH]; [exact (eq_refl (reflect 32 r))|].
  rewrite !Nat.iter_succ, reflect_catalogue_bit, IH. reflexivity.
Qed.

Lemma crc_update_cons (alg : Algorithm) (crc : Z) (b : byte) (bs : list byte) :
  crc_update alg crc (b :: bs) =
  crc_update alg (Z.lxor (crc32_value (crc_poly alg) (Z.land (Z.lxor crc (u8 b)) 255))
                         (Z.shiftr crc 8)) bs.
Proof. reflexivity. Qed.

Lemma catalogue_byte_H (reg : Z) (b : byte) :
  catalogue_byte CRC_32_ISO_HDLC reg b =
  Nat.iter 8 (catalogue_bit CRC_32_ISO_HDLC)
           (Z.lxor reg (Z.shiftl (reflect 8 (u8 b)) 24)).
Proof. reflexivity. Qed.

Lemma crc_update_reflect (bs : list byte) (reg : Z) :
  crc_update CRC_32_ISO_HDLC (reflect 32 reg) bs =
  reflect 32 (fold_left (catalogue_byte CRC_32_ISO_HDLC) bs reg).
Proof.
  revert reg. induction bs as [|b bs IH]; intro reg; [exact (eq_refl (reflect 32 reg))|].
  rewrite crc_update_cons, crc_poly_H.
  rewrite (crc_byte_step (reflect 32 79764919) (reflect 32 reg) (u8 b) (u8_range b)).
  cbn [fold_left]. rewrite <- IH, catalogue_byte_H, reflect_catalogue_iter.
  rewrite reflect_feed_byte by apply u8_range. reflexivity.
Qed.

Lemma checksum_H (bs : list byte) :
  checksum CRC_32_ISO_HDLC bs =
  Z.lxor (crc_update CRC_32_ISO_HDLC (reflect 32 4294967295) bs) 4294967295.
Proof. reflexivity. Qed.

Lemma catalogue_crc_H (bs : list byte) :
  catalogue_crc CRC_32_ISO_HDLC bs =
  Z.lxor (reflect 32 (fold_left (catalogue_byte CRC_32_ISO_HDLC) bs 4294967295))
         4294967295.
Proof. reflexivity. Qed.

(** The crate computes the catalogue CRC-32/ISO-HDLC. *)
Lemma checksum_catalogue (bs : list byte) :
  checksum CRC_32_ISO_HDLC bs = catalogue_crc CRC_32_ISO_HDLC bs.
Proof.
  rewrite checksum_H, catalogue_crc_H, crc_update_reflect. reflexivity.
Qed.

Lemma high_bits_range (x : Z) :
  (forall n, 32 <= n -> Z.testbit x n = false) -> 0 <= x < 4294967296.
Proof.
  intro H.
  assert (E : x = Z.land x (Z.ones 32)).
  { apply Z.bits_inj'. intros n Hn. rewrite Z.land_spec, Z.testbit_ones by lia.
    destruct (Z.ltb_spec n 32); cbn [andb]; destruct (Z.leb_spec 0 n); try lia;
      rewrite ?andb_true_r, ?andb_false_r; [reflexivity|]. apply H; lia. }
  rewrite Z.land_ones in E by lia. rewrite E.
  apply Z.mod_pos_bound. reflexivity.
Qed.

Lemma chunk_crc_range (c : Chunk) : 0 <= chunk_crc c < 4294967296.
Proof.
  unfold chunk_crc. rewrite checksum_catalogue, catalogue_crc_H.
  apply high_bits_range. intros n Hn.
  rewrite Z.lxor_spec, reflect_spec by lia.
  destruct (Z.ltb_spec n (Z.of_nat 32)); [lia|]. cbn [andb xorb].
  apply Z.bits_above_log2; [lia|]. cbn. lia.
Qed.

(** C4: a chunk's checksum is the catalogue CRC-32/ISO-HDLC (polynomial
    0x04C11DB7, initial value and final xor 0xFFFFFFFF, input and output
    reflected) over the four type bytes followed by the data, and that CRC
    of ["123456789"] is 0xCBF43926. *)
Theorem chunk_crc_is_crc32_iso_hdlc (c : Chunk) :
  chunk_crc c = catalogue_crc CRC_32_ISO_HDLC (bytes (chunk_type c) ++ data c) /\
  width CRC_32_ISO_HDLC = 32 /\ poly CRC_32_ISO_HDLC = 79764919 /\
  init CRC_32_ISO_HDLC = 4294967295 /\ refin CRC_32_ISO_HDLC = true /\
  refout CRC_32_ISO_HDLC = true /\ xorout CRC_32_ISO_HDLC = 4294967295 /\
  catalogue_crc CRC_32_ISO_HDLC check_input = 3421780262 /\
  checksum CRC_32_ISO_HDLC check_input = 3421780262.
Proof.
  split; [apply checksum_catalogue|].
  repeat split; vm_compute; reflexivity.
Qed.


Lemma chunk_as_bytes_ok (c : Chunk) :
  chunk_ok c -> chunk_as_bytes c = Ok (chunk_encoding c).
Proof.
  intros [_ Hlen]. unfold chunk_as_bytes, chunk_length.
  rewrite (proj2 (Z.ltb_lt _ _) Hlen). reflexivity.
Qed.

Lemma split_at_app {A} (l r : list A) :
  split_at (length l) (l ++ r) = Ok (l, r).
Proof.
  unfold split_at. rewrite length_app.
  rewrite (proj2 (Nat.leb_le _ _)) by lia.
  rewrite firstn_app, Nat.sub_diag, firstn_O, app_nil_r, firstn_all.
  rewrite skipn_app, Nat.sub_diag, skipn_O, skipn_all. reflexivity.
Qed.

Lemma chunk_try_from_header (l t : u8x4) (rest : list byte) :
  chunk_try_from (array4_list l ++ array4_list t ++ rest) =
  bind (chunk_type_try_from t) (fun chunk_type =>
  bind (split_at (Z.to_nat (u32_from_be_bytes l)) rest) (fun '(data, rest) =>
  let chunk := mkChunk chunk_type data in
  s <- slice rest 0 4 ;;
  crc_bytes <- array4 s ;;
  let crc := u32_from_be_bytes crc_bytes in
  if negb (crc =? chunk_crc chunk)
  then Err (ErrCrcMismatch crc (chunk_crc chunk))
  else Ok chunk)).
Proof.
  destruct l as [[[l0 l1] l2] l3], t as [[[t0 t1] t2] t3]. reflexivity.
Qed.

Lemma chunk_try_from_encoding (c : Chunk) (tl : list byte) :
  chunk_ok c -> chunk_try_from (chunk_encoding c ++ tl) = Ok c.
Proof.
  intros [Hutf Hlen]. destruct c as [ct d].
  cbn [chunk_type data] in *.
  pose proof (chunk_crc_range (mkChunk ct d)) as Hcrc.
  set (k := chunk_crc (mkChunk ct d)) in *.
  set (L := Z.of_nat (length d)) in *.
  destruct (u32_be_roundtrip L ltac:(lia)) as [HL1 HL2].
  destruct (u32_be_roundtrip k Hcrc) as [Hk1 Hk2].
  unfold chunk_encoding. cbn [chunk_type data].
  fold k. fold L.
  unfold u32_to_be_bytes at 1.
  change (bytes ct) with (array4_list (raw ct)).
  replace (([byte_of_Z (Z.shiftr L 24); byte_of_Z (Z.shiftr L 16);
            byte_of_Z (Z.shiftr L 8); byte_of_Z L] ++ array4_list (raw ct)
           ++ d ++ u32_to_be_bytes k) ++ tl)
    with (array4_list (byte_of_Z (Z.shiftr L 24), byte_of_Z (Z.shiftr L 16),
                       byte_of_Z (Z.shiftr L 8), byte_of_Z L)
          ++ array4_list (raw ct) ++ (d ++ (u32_to_be_bytes k ++ tl)))
    by (cbn [array4_list app]; rewrite <- !app_assoc; reflexivity).
  rewrite chunk_try_from_header, HL2.
  unfold chunk_type_try_from, from_utf8. change (array4_list (raw ct)) with (bytes ct).
  rewrite Hutf. cbn [bind].
  replace (Z.to_nat L) with (length d) by (unfold L; lia).
  rewrite split_at_app. cbn [bind].
  unfold u32_to_be_bytes. cbn [slice app length Nat.leb andb firstn skipn Nat.sub].
  cbn [array4 bind].
  rewrite Hk2. destruct ct. fold k. rewrite Z.eqb_refl. reflexivity.
Qed.

Lemma utf8_type_ok (t : u8x4) :
  utf8_valid (array4_list t) = true -> chunk_type_try_from t = Ok (mkChunkType t).
Proof. intro H. unfold chunk_type_try_from, from_utf8. rewrite H. reflexivity. Qed.

Lemma chunk_try_from_short (buf : list byte) :
  (length buf < 8)%nat -> chunk_try_from buf = Panic.
Proof.
  intro H. unfold chunk_try_from, split_at.
  rewrite (proj2 (Nat.leb_gt _ _) H). reflexivity.
Qed.

Lemma png_try_from_short (buf : list byte) :
  (length buf < 8)%nat -> png_try_from buf = Panic.
Proof.
  intro H. unfold png_try_from, slice.
  rewrite (proj2 (Nat.leb_gt _ _) H), andb_false_r. reflexivity.
Qed.

(** A declared length the buffer cannot hold, with a type that passes the
    UTF-8 check, ends in a panic of [split_at] or of [rest[0..4]]. *)
Lemma chunk_try_from_overlong (lb tb : u8x4) (rest : list byte) :
  utf8_valid (array4_list tb) = true ->
  (length rest < Z.to_nat (u32_from_be_bytes lb) + 4)%nat ->
  chunk_try_from (array4_list lb ++ array4_list tb ++ rest) = Panic.
Proof.
  intros Hutf Hlen. rewrite chunk_try_from_header, utf8_type_ok by exact Hutf.
  cbn [bind]. unfold split_at.
  destruct (Nat.leb_spec (Z.to_nat (u32_from_be_bytes lb)) (length rest)) as [Hle|Hgt];
    [|reflexivity].
  cbn [bind]. unfold slice.
  rewrite length_skipn. rewrite (proj2 (Nat.leb_gt 4 _)) by lia.
  reflexivity.
Qed.

Lemma chunk_try_from_layout (lb tb cb : u8x4) (d tl : list byte) :
  length d = Z.to_nat (u32_from_be_bytes lb) ->
  chunk_try_from (array4_list lb ++ array4_list tb ++ d ++ array4_list cb ++ tl) =
  if utf8_valid (array4_list tb) then
    (if u32_from_be_bytes cb =? chunk_crc (mkChunk (mkChunkType tb) d)
     then Ok (mkChunk (mkChunkType tb) d)
     else Err (ErrCrcMismatch (u32_from_be_bytes cb)
                              (chunk_crc (mkChunk (mkChunkType tb) d))))
  else Err ErrUtf8.
Proof.
  intro Hd. rewrite chunk_try_from_header.
  unfold chunk_type_try_from, from_utf8.
  destruct (utf8_valid (array4_list tb)); [|reflexivity]. cbn [bind].
  rewrite <- Hd, split_at_app. cbn [bind].
  destruct cb as [[[c0 c1] c2] c3]. cbn [array4_list app slice length Nat.leb andb
                                         firstn skipn Nat.sub array4 bind].
  destruct (_ =? _); reflexivity.
Qed.


Lemma bytes_length (ct : ChunkType) : length (bytes ct) = 4%nat.
Proof. destruct ct as [[[[b0 b1] b2] b3]]. reflexivity. Qed.

Lemma chunk_encoding_length (c : Chunk) :
  length (chunk_encoding c) = (length (data c) + 12)%nat.
Proof.
  unfold chunk_encoding. rewrite !length_app, bytes_length. cbn. lia.
Qed.

Lemma chunk_length_ok (c : Chunk) :
  chunk_ok c -> chunk_length c = Ok (Z.of_nat (length (data c))).
Proof.
  intros [_ H]. unfold chunk_length. rewrite (proj2 (Z.ltb_lt _ _) H). reflexivity.
Qed.

Lemma slice_from_ok {A} (l : list A) (i : nat) :
  (i <= length l)%nat -> slice_from l i = Ok (skipn i l).
Proof. intro H. unfold slice_from. rewrite (proj2 (Nat.leb_le _ _) H). reflexivity. Qed.

Lemma png_loop_step (fuel : nat) (value : list byte) (index : nat) (png : Png)
      (c : Chunk) (rest : list byte) :
  chunk_ok c -> is_iend c = false ->
  skipn index value = chunk_encoding c ++ rest -> (index <= length value)%nat ->
  png_loop (S fuel) value index png =
  png_loop fuel value (index + length (data c) + 12) (append_chunk png c).
Proof.
  intros Hok Hend Hskip Hidx. cbn [png_loop].
  rewrite slice_from_ok by exact Hidx. cbn [bind].
  rewrite Hskip, chunk_try_from_encoding by exact Hok.
  rewrite chunk_length_ok by exact Hok. cbn [bind].
  rewrite Nat2Z.id. unfold is_iend in Hend. unfold type_matches in Hend.
  rewrite Hend. reflexivity.
Qed.

Lemma skipn_encoding_next (value : list byte) (index : nat) (c : Chunk) (rest : list byte) :
  skipn index value = chunk_encoding c ++ rest ->
  skipn (index + length (data c) + 12) value = rest /\
  (index + length (data c) + 12 <= length value)%nat.
Proof.
  intro H.
  assert (Hl : length (skipn index value) = length (chunk_encoding c ++ rest))
    by now rewrite H.
  rewrite length_skipn, length_app, chunk_encoding_length in Hl.
  split; [|lia].
  replace (index + length (data c) + 12)%nat
    with (length (chunk_encoding c) + index)%nat by (rewrite chunk_encoding_length; lia).
  rewrite <- skipn_skipn, H, skipn_app, Nat.sub_diag, skipn_O, skipn_all. reflexivity.
Qed.

Lemma png_loop_chunks (value rest : list byte) (cs : list Chunk) :
  Forall chunk_ok cs -> Forall (fun c => is_iend c = false) cs ->
  forall fuel index png,
  skipn index value = concat (map chunk_encoding cs) ++ rest ->
  (index <= length value)%nat -> (length cs <= fuel)%nat ->
  exists index', skipn index' value = rest /\ (index' <= length value)%nat /\
    png_loop fuel value index png =
    png_loop (fuel - length cs) value index' (mkPng (chunks png ++ cs)).
Proof.
  intros Hok Hend. induction Hok as [|c cs Hc Hok IH]; intros fuel index png Hskip Hidx Hfuel.
  - exists index. cbn in *. rewrite Nat.sub_0_r, app_nil_r. destruct png.
    split; [exact Hskip|]. split; [exact Hidx|reflexivity].
  - inversion_clear Hend as [|? ? Hc_end Hend'].
    cbn [map concat length] in *. rewrite <- app_assoc in Hskip.
    destruct fuel as [|fuel]; [lia|].
    destruct (skipn_encoding_next _ _ _ _ Hskip) as [Hnext Hle].
    rewrite (png_loop_step fuel value index png c _ Hc Hc_end Hskip Hidx).
    destruct (IH Hend' fuel _ (append_chunk png c) Hnext Hle ltac:(lia))
      as [index' [H1 [H2 H3]]].
    exists index'. split; [exact H1|]. split; [exact H2|].
    rewrite H3. cbn [Nat.sub append_chunk chunks]. rewrite <- app_assoc. reflexivity.
Qed.

Lemma png_loop_iend (fuel : nat) (value : list byte) (index : nat) (png : Png)
      (c : Chunk) (rest : list byte) :
  chunk_ok c -> is_iend c = true ->
  skipn index value = chunk_encoding c ++ rest -> (index <= length value)%nat ->
  png_loop (S fuel) value index png = Ok (append_chunk png c).
Proof.
  intros Hok Hend Hskip Hidx. cbn [png_loop].
  rewrite slice_from_ok by exact Hidx. cbn [bind].
  rewrite Hskip, chunk_try_from_encoding by exact Hok.
  rewrite chunk_length_ok by exact Hok. cbn [bind].
  unfold is_iend, type_matches in Hend. rewrite Hend. reflexivity.
Qed.

Lemma png_loop_err (fuel : nat) (value : list byte) (index : nat) (png : Png) (e : error) :
  chunk_try_from (skipn index value) = Err e -> (index <= length value)%nat ->
  png_loop (S fuel) value index png = Ok png.
Proof.
  intros He Hidx. cbn [png_loop].
  rewrite slice_from_ok by exact Hidx. cbn [bind]. rewrite He. reflexivity.
Qed.

Lemma png_as_bytes_ok (cs : list Chunk) :
  Forall chunk_ok cs ->
  png_as_bytes (mkPng cs) = Ok (STANDARD_HEADER ++ concat (map chunk_encoding cs)).
Proof.
  intro Hok. unfold png_as_bytes. cbn [chunks].
  generalize STANDARD_HEADER as acc.
  induction Hok as [|c cs Hc Hok IH]; intro acc.
  - cbn. rewrite app_nil_r. reflexivity.
  - cbn [fold_left bind]. rewrite chunk_as_bytes_ok by exact Hc. cbn [bind].
    rewrite IH. cbn [map concat]. rewrite app_assoc. reflexivity.
Qed.

Lemma png_try_from_signed (r : list byte) :
  png_try_from (STANDARD_HEADER ++ r) =
  png_loop (S (8 + length r)) (STANDARD_HEADER ++ r) 8 (mkPng []).
Proof. reflexivity. Qed.

Lemma encodings_length (cs : list Chunk) :
  (12 * length cs <= length (concat (map chunk_encoding cs)))%nat.
Proof.
  induction cs as [|c cs IH]; [cbn; lia|].
  cbn [map concat length]. rewrite length_app, chunk_encoding_length. lia.
Qed.

Lemma png_parse_chunks (cs : list Chunk) (tl : list byte) :
  Forall chunk_ok cs -> Forall (fun c => is_iend c = false) cs ->
  exists index fuel,
    skipn index (STANDARD_HEADER ++ concat (map chunk_encoding cs) ++ tl) = tl /\
    (index <= length (STANDARD_HEADER ++ concat (map chunk_encoding cs) ++ tl))%nat /\
    png_try_from (STANDARD_HEADER ++ concat (map chunk_encoding cs) ++ tl) =
    png_loop (S fuel) (STANDARD_HEADER ++ concat (map chunk_encoding cs) ++ tl)
             index (mkPng cs).
Proof.
  intros Hok Hend. rewrite png_try_from_signed.
  set (value := STANDARD_HEADER ++ concat (map chunk_encoding cs) ++ tl).
  destruct (png_loop_chunks value tl cs Hok Hend
              (S (8 + length (concat (map chunk_encoding cs) ++ tl))) 8 (mkPng []))
    as [index [H1 [H2 H3]]].
  - reflexivity.
  - unfold value. rewrite length_app. cbn. lia.
  - pose proof (encodings_length cs). rewrite length_app. lia.
  - exists index, (8 + length (concat (map chunk_encoding cs) ++ tl) - length cs)%nat.
    split; [exact H1|]. split; [exact H2|].
    rewrite H3. cbn [chunks app]. f_equal.
    pose proof (encodings_length cs). rewrite length_app in *. lia.
Qed.

Lemma png_parse_terminated (cs : list Chunk) (c : Chunk) (tl : list byte) :
  Forall chunk_ok cs -> Forall (fun x => is_iend x = false) cs ->
  chunk_ok c -> is_iend c = true ->
  png_try_from (STANDARD_HEADER ++ concat (map chunk_encoding (cs ++ [c])) ++ tl) =
  Ok (mkPng (cs ++ [c])).
Proof.
  intros Hok Hend Hc Hcend.
  rewrite map_app, concat_app. cbn [map concat]. rewrite app_nil_r, <- app_assoc.
  destruct (png_parse_chunks cs (chunk_encoding c ++ tl) Hok Hend)
    as [index [fuel [H1 [H2 H3]]]].
  rewrite H3, (png_loop_iend _ _ _ _ c tl Hc Hcend H1 H2). reflexivity.
Qed.

Lemma png_parse_error (cs : list Chunk) (tl : list byte) (e : error) :
  Forall chunk_ok cs -> Forall (fun x => is_iend x = false) cs ->
  chunk_try_from tl = Err e ->
  png_try_from (STANDARD_HEADER ++ concat (map chunk_encoding cs) ++ tl) = Ok (mkPng cs).
Proof.
  intros Hok Hend He.
  destruct (png_parse_chunks cs tl Hok Hend) as [index [fuel [H1 [H2 H3]]]].
  rewrite H3. apply (png_loop_err _ _ _ _ e); [rewrite H1; exact He|exact H2].
Qed.

(** ** The container *)

(** C10: on a buffer shorter than 8 bytes both parsing entry points
    panic ([value[0..8]] in [Png::try_from], [split_at(8)] in
    [Chunk::try_from]) instead of returning an error. *)
Theorem short_buffer_panics (buf : list byte) :
  (length buf < 8)%nat -> png_try_from buf = Panic /\ chunk_try_from buf = Panic.
Proof.
  intro H. split; [apply png_try_from_short | apply chunk_try_from_short]; exact H.
Qed.

Lemma short_buffer_panics_witness :
  (length [x89; x50; x4e] < 8)%nat /\
  png_try_from [x89; x50; x4e] = Panic /\ chunk_try_from [x89; x50; x4e] = Panic.
Proof.
  split; [cbn; lia|]. apply short_buffer_panics. cbn; lia.
Defined.

(** C8: a buffer of at least 8 bytes whose first 8 bytes are not the PNG
    signature is refused with the signature error, whatever follows, before
    the chunk loop runs. *)
Theorem png_try_from_bad_signature (buf : list byte) :
  (8 <= length buf)%nat -> firstn 8 buf <> STANDARD_HEADER ->
  png_try_from buf = Err (ErrSignature (firstn 8 buf)).
Proof.
  intros Hlen Hsig. unfold png_try_from, slice.
  rewrite (proj2 (Nat.leb_le _ _) Hlen). cbn [andb Nat.leb bind Nat.sub skipn].
  destruct (bytes_eqb (firstn 8 buf) STANDARD_HEADER) eqn:E.
  - apply bytes_eqb_eq in E. contradiction.
  - reflexivity.
Qed.

Lemma png_try_from_bad_signature_witness :
  png_try_from [x89; x50; x4e; x47; x0d; x0a; x1a; x00; x00] =
  Err (ErrSignature [x89; x50; x4e; x47; x0d; x0a; x1a; x00]).
Proof.
  apply (png_try_from_bad_signature [x89; x50; x4e; x47; x0d; x0a; x1a; x00; x00]).
  - cbn; lia.
  - intro H; vm_compute in H; discriminate H.
Defined.

(** C3 fails on the code: a declared length the buffer cannot hold makes
    [Chunk::try_from] panic in [split_at], and a buffer with no room for
    the checksum makes it panic in [rest[0..4]]; [Png::try_from] panics
    with it.  The buffer [00 00 00 05 "IHDR" 01 02] declares 5 data bytes
    and holds 2. *)
Theorem chunk_try_from_truncated_panics :
  chunk_try_from [x00; x00; x00; x05; x49; x48; x44; x52; x01; x02] = Panic /\
  chunk_try_from [x00; x00; x00; x00; x49; x48; x44; x52; x01; x02] = Panic /\
  png_try_from (STANDARD_HEADER ++
                [x00; x00; x00; x05; x49; x48; x44; x52; x01; x02]) = Panic.
Proof.
  split; [|split].
  - apply (chunk_try_from_overlong (x00, x00, x00, x05) (x49, x48, x44, x52) [x01; x02]);
      [reflexivity | cbn; lia].
  - apply (chunk_try_from_overlong (x00, x00, x00, x00) (x49, x48, x44, x52) [x01; x02]);
      [reflexivity | cbn; lia].
  - vm_compute. reflexivity.
Qed.

(** C1 (as amended): after a valid signature, the loop appends decoded
    chunks in order and returns success right after appending the first
    chunk whose type renders as ["IEND"]; a decode error before that is not
    propagated: the loop stops and returns the chunks accumulated so far.
    The buffers are written with [Png::as_bytes]. *)
Theorem png_try_from_accumulates (cs : list Chunk) :
  Forall chunk_ok cs -> Forall (fun x => is_iend x = false) cs ->
  (forall c b tl, chunk_ok c -> is_iend c = true ->
     png_as_bytes (mkPng (cs ++ [c])) = Ok b ->
     png_try_from (b ++ tl) = Ok (mkPng (cs ++ [c]))) /\
  (forall b tl e, png_as_bytes (mkPng cs) = Ok b -> chunk_try_from tl = Err e ->
     png_try_from (b ++ tl) = Ok (mkPng cs)).
Proof.
  intros Hok Hend. split.
  - intros c b tl Hc Hcend Hb.
    rewrite png_as_bytes_ok in Hb by (apply Forall_app; split; [exact Hok|auto]).
    replace b with (STANDARD_HEADER ++ concat (map chunk_encoding (cs ++ [c])))
      by congruence.
    rewrite <- app_assoc. apply png_parse_terminated; assumption.
  - intros b tl e Hb He. rewrite png_as_bytes_ok in Hb by exact Hok.
    replace b with (STANDARD_HEADER ++ concat (map chunk_encoding cs)) by congruence.
    rewrite <- app_assoc. apply (png_parse_error cs tl e); assumption.
Qed.

(** A data chunk of type ["RuSt"] holding one byte, and the [IEND] chunk. *)
Lemma png_try_from_accumulates_witness :
  png_try_from ((STANDARD_HEADER ++ [x00; x00; x00; x01; x52; x75; x53; x74; x2a;
                                     x26; x02; xde; xd5]
                                ++ [x00; x00; x00; x00; x49; x45; x4e; x44;
                                    xae; x42; x60; x82]) ++ [x00]) =
  Ok (mkPng [mkChunk RuSt [x2a]; mkChunk (mkChunkType (x49, x45, x4e, x44)) []]) /\
  png_try_from ((STANDARD_HEADER ++ [x00; x00; x00; x01; x52; x75; x53; x74; x2a;
                                     x26; x02; xde; xd5])
                ++ [x00; x00; x00; x00; x49; x45; x4e; x44; x00; x00; x00; x00]) =
  Ok (mkPng [mkChunk RuSt [x2a]]).
Proof.
  assert (Hok : Forall chunk_ok [mkChunk RuSt [x2a]]).
  { repeat constructor; vm_compute; reflexivity. }
  assert (Hend : Forall (fun x => is_iend x = false) [mkChunk RuSt [x2a]]).
  { repeat constructor. }
  destruct (png_try_from_accumulates [mkChunk RuSt [x2a]] Hok Hend) as [H1 H2].
  split.
  - apply (H1 (mkChunk (mkChunkType (x49, x45, x4e, x44)) [])).
    + split; vm_compute; reflexivity.
    + reflexivity.
    + vm_compute. reflexivity.
  - apply (H2 _ _ (ErrCrcMismatch 0 2923585666)); vm_compute; reflexivity.
Defined.

(** C1 as stated fails: a checksum mismatch in the first chunk is not
    propagated, parsing succeeds with no chunk and no terminator; and a
    buffer that ends without a terminator panics instead of failing with a
    missing-terminator error. *)
Lemma png_try_from_swallows_decode_error :
  chunk_try_from [x00; x00; x00; x00; x49; x45; x4e; x44; x00; x00; x00; x00] =
    Err (ErrCrcMismatch 0 2923585666) /\
  png_try_from (STANDARD_HEADER ++
                [x00; x00; x00; x00; x49; x45; x4e; x44; x00; x00; x00; x00]) =
    Ok (mkPng []) /\
  png_try_from (STANDARD_HEADER ++
                [x00; x00; x00; x01; x52; x75; x53; x74; x2a; x26; x02; xde; xd5]) =
    Panic.
Proof. split; [|split]; vm_compute; reflexivity. Qed.

(** C2 (as amended): a container whose chunks are valid and whose only
    [IEND] chunk is the last one serializes, and parsing the bytes gives
    back the same chunks in the same order. *)
Theorem png_roundtrip (cs : list Chunk) (c : Chunk) :
  Forall chunk_ok cs -> Forall (fun x => is_iend x = false) cs ->
  chunk_ok c -> is_iend c = true ->
  exists b, png_as_bytes (mkPng (cs ++ [c])) = Ok b /\
            png_try_from b = Ok (mkPng (cs ++ [c])).
Proof.
  intros Hok Hend Hc Hcend.
  exists (STANDARD_HEADER ++ concat (map chunk_encoding (cs ++ [c]))). split.
  - apply png_as_bytes_ok. apply Forall_app. split; [exact Hok|auto].
  - rewrite <- (app_nil_r (concat _)). apply png_parse_terminated; assumption.
Qed.

Lemma png_roundtrip_witness :
  exists b, png_as_bytes (mkPng [mkChunk RuSt [x2a];
                                 mkChunk (mkChunkType (x49, x45, x4e, x44)) []]) = Ok b /\
            png_try_from b = Ok (mkPng [mkChunk RuSt [x2a];
                                        mkChunk (mkChunkType (x49, x45, x4e, x44)) []]).
Proof.
  apply (png_roundtrip [mkChunk RuSt [x2a]] (mkChunk (mkChunkType (x49, x45, x4e, x44)) [])).
  - repeat constructor; vm_compute; reflexivity.
  - repeat constructor.
  - split; vm_compute; reflexivity.
  - reflexivity.
Defined.

(** C2 as stated fails: the empty container is produced by a successful
    parse (of a signature followed by a chunk with a bad checksum), and
    parsing its serialization, the bare signature, panics. *)
Lemma parse_of_serialized_parse_result_panics :
  png_try_from (STANDARD_HEADER ++
                [x00; x00; x00; x00; x49; x45; x4e; x44; x00; x00; x00; x00]) =
    Ok (mkPng []) /\
  png_as_bytes (mkPng []) = Ok STANDARD_HEADER /\
  png_try_from STANDARD_HEADER = Panic.
Proof. split; [|split]; vm_compute; reflexivity. Qed.

(** C5 (as amended): a complete encoding whose stored checksum differs
    from the checksum of its type and data is rejected, never accepted:
    with a UTF-8 type the error is the checksum mismatch, otherwise the
    type's UTF-8 error. *)
Theorem chunk_try_from_checksum_mismatch (lb tb cb : u8x4) (d tl : list byte) :
  length d = Z.to_nat (u32_from_be_bytes lb) ->
  u32_from_be_bytes cb <> chunk_crc (mkChunk (mkChunkType tb) d) ->
  chunk_try_from (array4_list lb ++ array4_list tb ++ d ++ array4_list cb ++ tl) =
    (if utf8_valid (array4_list tb)
     then Err (ErrCrcMismatch (u32_from_be_bytes cb) (chunk_crc (mkChunk (mkChunkType tb) d)))
     else Err ErrUtf8) /\
  (forall c, chunk_try_from (array4_list lb ++ array4_list tb ++ d ++ array4_list cb ++ tl)
             <> Ok c).
Proof.
  intros Hd Hcrc.
  assert (Heq : chunk_try_from (array4_list lb ++ array4_list tb ++ d ++ array4_list cb ++ tl) =
    (if utf8_valid (array4_list tb)
     then Err (ErrCrcMismatch (u32_from_be_bytes cb) (chunk_crc (mkChunk (mkChunkType tb) d)))
     else Err ErrUtf8)).
  { rewrite (chunk_try_from_layout lb tb cb d tl Hd).
    destruct (utf8_valid (array4_list tb)); [|reflexivity].
    rewrite (proj2 (Z.eqb_neq _ _) Hcrc). reflexivity. }
  split; [exact Heq|]. intro c. rewrite Heq.
  destruct (utf8_valid (array4_list tb)); discriminate.
Qed.

(** The [IEND] chunk with the last checksum byte flipped. *)
Lemma chunk_try_from_checksum_mismatch_witness :
  chunk_try_from (array4_list (x00, x00, x00, x00) ++ array4_list (x49, x45, x4e, x44) ++ []
                  ++ array4_list (xae, x42, x60, x83) ++ []) =
    Err (ErrCrcMismatch 2923585667 2923585666).
Proof.
  refine (eq_trans (proj1 (chunk_try_from_checksum_mismatch
                             (x00, x00, x00, x00) (x49, x45, x4e, x44)
                             (xae, x42, x60, x83) [] [] _ _)) _).
  - reflexivity.
  - vm_compute. discriminate.
  - vm_compute. reflexivity.
Defined.

(** C5 as stated fails: a chunk whose stored checksum is wrong but whose
    type bytes are not UTF-8 is rejected with the UTF-8 error, not with a
    checksum mismatch. *)
Lemma chunk_try_from_wrong_checksum_utf8_error :
  (chunk_crc (mkChunk (mkChunkType (xff, x41, x41, x41)) []) =? 0) = false /\
  chunk_try_from [x00; x00; x00; x00; xff; x41; x41; x41; x00; x00; x00; x00] =
    Err ErrUtf8.
Proof. split; vm_compute; reflexivity. Qed.

(** A chunk type that is valid UTF-8 renders as its own bytes. *)
Lemma display_utf8 (ct : ChunkType) :
  utf8_valid (bytes ct) = true -> chunk_type_display ct = bytes ct.
Proof. intro H. unfold chunk_type_display, from_utf8. rewrite H. reflexivity. Qed.

Lemma type_matches_iff (code : list byte) (x : Chunk) :
  utf8_valid (bytes (chunk_type x)) = true ->
  type_matches code x = true <-> bytes (chunk_type x) = code.
Proof.
  intro H. unfold type_matches. rewrite (display_utf8 _ H). apply bytes_eqb_eq.
Qed.

Lemma type_matches_false (code : list byte) (x : Chunk) :
  utf8_valid (bytes (chunk_type x)) = true -> bytes (chunk_type x) <> code ->
  type_matches code x = false.
Proof.
  intros H Hne. destruct (type_matches code x) eqn:E; [|reflexivity].
  apply (type_matches_iff code x H) in E. contradiction.
Qed.

Lemma position_first {A} (f : A -> bool) (pre post : list A) (c : A) :
  Forall (fun x => f x = false) pre -> f c = true ->
  position f (pre ++ c :: post) = Some (length pre).
Proof.
  intros Hpre Hc. induction Hpre as [|x pre Hx _ IH]; cbn.
  - rewrite Hc. reflexivity.
  - rewrite Hx, IH. reflexivity.
Qed.

Lemma position_none {A} (f : A -> bool) (l : list A) :
  Forall (fun x => f x = false) l -> position f l = None.
Proof.
  intro Hl. induction Hl as [|x l Hx _ IH]; cbn; [reflexivity|].
  rewrite Hx, IH. reflexivity.
Qed.

Lemma find_first {A} (f : A -> bool) (pre post : list A) (c : A) :
  Forall (fun x => f x = false) pre -> f c = true ->
  find f (pre ++ c :: post) = Some c.
Proof.
  intros Hpre Hc. induction Hpre as [|x pre Hx _ IH]; cbn.
  - rewrite Hc. reflexivity.
  - rewrite Hx. exact IH.
Qed.

Lemma find_none {A} (f : A -> bool) (l : list A) :
  Forall (fun x => f x = false) l -> find f l = None.
Proof.
  intro Hl. induction Hl as [|x l Hx _ IH]; cbn; [reflexivity|].
  rewrite Hx. exact IH.
Qed.

Lemma vec_remove_middle {A} (pre post : list A) (c : A) :
  vec_remove (length pre) (pre ++ c :: post) = Ok (c, pre ++ post).
Proof.
  unfold vec_remove. rewrite nth_error_app2, Nat.sub_diag by lia. cbn.
  f_equal. f_equal.
  rewrite firstn_app, Nat.sub_diag, firstn_all. cbn. rewrite app_nil_r.
  f_equal. induction pre as [|x pre IH]; cbn; [reflexivity|]. exact IH.
Qed.

Lemma Forall_not_matching (code : list byte) (l : list Chunk) :
  Forall (fun x => utf8_valid (bytes (chunk_type x)) = true) l ->
  Forall (fun x => bytes (chunk_type x) <> code) l ->
  Forall (fun x => type_matches code x = false) l.
Proof.
  intros Hu Hne. induction Hu as [|x l Hx _ IH]; [constructor|].
  inversion Hne as [|? ? Hxne Hlne]; subst.
  constructor; [apply type_matches_false; assumption|]. exact (IH Hlne).
Qed.

(** C9: in a container whose chunk types are valid UTF-8 (as every chunk
    type the code builds is), [remove_chunk code] removes and returns the
    first chunk whose type bytes equal [code], leaving the others in their
    order, and [chunk_by_type code] returns that same chunk; when no chunk
    matches, [remove_chunk] fails with the not-found error and
    [chunk_by_type] returns nothing. *)
Theorem remove_chunk_first_match (cs : list Chunk) (code : list byte) :
  Forall (fun x => utf8_valid (bytes (chunk_type x)) = true) cs ->
  (forall pre c post, cs = pre ++ c :: post ->
     Forall (fun x => bytes (chunk_type x) <> code) pre ->
     bytes (chunk_type c) = code ->
     remove_chunk (mkPng cs) code = Ok (c, mkPng (pre ++ post)) /\
     chunk_by_type (mkPng cs) code = Some c) /\
  (Forall (fun x => bytes (chunk_type x) <> code) cs ->
     remove_chunk (mkPng cs) code = Err (ErrNotFound code) /\
     chunk_by_type (mkPng cs) code = None).
Proof.
  intro Hu. split.
  - intros pre c post -> Hpre Hc.
    apply Forall_app in Hu. destruct Hu as [Hupre Hupost].
    apply Forall_cons_iff in Hupost. destruct Hupost as [Huc _].
    assert (Hm : type_matches code c = true) by (apply type_matches_iff; auto).
    pose proof (Forall_not_matching code pre Hupre Hpre) as Hf.
    unfold remove_chunk, chunk_by_type. cbn [chunks].
    rewrite (position_first _ pre post c Hf Hm), vec_remove_middle,
            (find_first _ pre post c Hf Hm).
    split; reflexivity.
  - intro Hne. pose proof (Forall_not_matching code cs Hu Hne) as Hf.
    unfold remove_chunk, chunk_by_type. cbn [chunks].
    rewrite (position_none _ cs Hf), (find_none _ cs Hf). split; reflexivity.
Qed.

(** Chunks of types A, B, A (["RuSt"], ["IEND"], ["RuSt"]): removing
    ["RuSt"] takes the first one and leaves B, A; no chunk has type
    ["IHDR"]. *)
Lemma remove_chunk_first_match_witness :
  (remove_chunk (mkPng [mkChunk RuSt [x01]; mkChunk (mkChunkType (x49, x45, x4e, x44)) [];
                        mkChunk RuSt [x02]]) (bytes RuSt) =
     Ok (mkChunk RuSt [x01],
         mkPng [mkChunk (mkChunkType (x49, x45, x4e, x44)) []; mkChunk RuSt [x02]]) /\
   chunk_by_type (mkPng [mkChunk RuSt [x01]; mkChunk (mkChunkType (x49, x45, x4e, x44)) [];
                         mkChunk RuSt [x02]]) (bytes RuSt) = Some (mkChunk RuSt [x01])) /\
  (remove_chunk (mkPng [mkChunk RuSt [x01]; mkChunk (mkChunkType (x49, x45, x4e, x44)) [];
                        mkChunk RuSt [x02]]) [x49; x48; x44; x52] =
     Err (ErrNotFound [x49; x48; x44; x52]) /\
   chunk_by_type (mkPng [mkChunk RuSt [x01]; mkChunk (mkChunkType (x49, x45, x4e, x44)) [];
                         mkChunk RuSt [x02]]) [x49; x48; x44; x52] = None).
Proof.
  assert (Hu : Forall (fun x => utf8_valid (bytes (chunk_type x)) = true)
                 [mkChunk RuSt [x01]; mkChunk (mkChunkType (x49, x45, x4e, x44)) [];
                  mkChunk RuSt [x02]]) by (repeat constructor).
  split.
  - apply (proj1 (remove_chunk_first_match _ (bytes RuSt) Hu) []
             (mkChunk RuSt [x01])
             [mkChunk (mkChunkType (x49, x45, x4e, x44)) []; mkChunk RuSt [x02]]).
    + reflexivity.
    + constructor.
    + reflexivity.
  - apply (proj2 (remove_chunk_first_match _ [x49; x48; x44; x52] Hu)).
    repeat constructor; cbn; discriminate.
Defined.

(** * Further properties of the code *)

(** ** Chunk types *)

Lemma fold_and_forallb (f : byte -> bool) (l : list byte) (v : bool) :
  fold_left (fun valid b => f b && valid) l v = forallb f l && v.
Proof.
  revert v. induction l as [|x l IH]; intro v; cbn; [reflexivity|].
  rewrite IH. destruct (f x), (forallb f l), v; reflexivity.
Qed.

Lemma letter_range (b : byte) : is_ascii_letter b = true -> 65 <= u8 b <= 122.
Proof.
  unfold is_ascii_letter, is_ascii_lowercase, is_ascii_uppercase, in_range.
  intro H. apply orb_true_iff in H.
  destruct H as [H|H]; apply andb_true_iff in H; destruct H as [H1 H2];
    apply Z.leb_le in H1, H2; lia.
Qed.

Lemma uppercase_not_lowercase (b : byte) :
  is_ascii_uppercase b = true -> is_ascii_lowercase b = false.
Proof.
  unfold is_ascii_uppercase, is_ascii_lowercase, in_range. intro H.
  apply andb_true_iff in H. destruct H as [H1 H2]. apply Z.leb_le in H1, H2.
  apply andb_false_iff. left. apply Z.leb_gt. lia.
Qed.

(** On a letter, bit 5 is clear exactly for an uppercase letter. *)
Lemma letter_bit5 (b : byte) :
  is_ascii_letter b = true ->
  (bit5 b =? 0) = is_ascii_uppercase b /\ (bit5 b =? 1) = is_ascii_lowercase b.
Proof.
  intro H. rewrite bit5_testbit.
  destruct (is_ascii_uppercase b) eqn:U.
  - rewrite (uppercase_bit5 b U), (uppercase_not_lowercase b U). split; reflexivity.
  - unfold is_ascii_letter in H. rewrite U, orb_false_r in H.
    rewrite (lowercase_bit5 b H), H. split; reflexivity.
Qed.

Lemma letters_utf8 (l : list byte) : forallb is_ascii_letter l = true -> utf8_valid l = true.
Proof.
  induction l as [|x l IH]; intro H; [reflexivity|].
  cbn [forallb] in H. apply andb_true_iff in H. destruct H as [Hx Hl].
  pose proof (letter_range x Hx). cbn [utf8_valid].
  rewrite (proj2 (Z.ltb_lt (u8 x) 128)) by lia. exact (IH Hl).
Qed.

Lemma from_str_ok (s : list byte) (ct : ChunkType) :
  chunk_type_from_str s = Ok ct -> forallb is_ascii_letter s = true /\ bytes ct = s.
Proof.
  unfold chunk_type_from_str.
  destruct s as [|b0 [|b1 [|b2 [|b3 [|b4 s]]]]]; cbn [array4 bind]; try discriminate.
  cbn [array4_list]. rewrite (fold_and_forallb is_ascii_letter), andb_true_r.
  destruct (forallb is_ascii_letter [b0; b1; b2; b3]) eqn:E; [|discriminate].
  intro H. injection H as <-. split; reflexivity.
Qed.

Lemma is_valid_letters (ct : ChunkType) :
  is_valid ct = forallb is_ascii_letter (bytes ct) && is_ascii_uppercase (byte_at ct 2).
Proof.
  destruct ct as [[[[b0 b1] b2] b3]].
  unfold is_valid. rewrite (fold_and_forallb is_ascii_letter), andb_true_r.
  unfold is_reserved_bit_valid.
  cbn [bytes array4_list forallb byte_at raw nth].
  destruct (is_ascii_letter b2) eqn:E2.
  - rewrite (proj1 (letter_bit5 b2 E2)). reflexivity.
  - destruct (is_ascii_letter b0), (is_ascii_letter b1); reflexivity.
Qed.

(** X1: [ChunkType::from_str] fails with the slice-conversion error on a
    string that is not 4 bytes long, fails with the invalid-chunk-type
    error on 4 bytes that are not all ASCII letters, and otherwise builds
    the chunk type holding exactly those 4 bytes. *)
Theorem chunk_type_from_str_spec (s : list byte) :
  (length s <> 4%nat -> chunk_type_from_str s = Err ErrTryFromSlice) /\
  (length s = 4%nat -> forallb is_ascii_letter s = false ->
     chunk_type_from_str s = Err ErrInvalidChunkType) /\
  (length s = 4%nat -> forallb is_ascii_letter s = true ->
     exists ct, chunk_type_from_str s = Ok ct /\ bytes ct = s).
Proof.
  unfold chunk_type_from_str.
  destruct s as [|b0 [|b1 [|b2 [|b3 [|b4 s]]]]]; cbn [array4 bind length];
    try (split; [reflexivity | split; intro; lia]).
  cbn [array4_list]. rewrite (fold_and_forallb is_ascii_letter), andb_true_r.
  split; [intro H; contradiction H; reflexivity|]. split.
  - intros _ E. rewrite E. reflexivity.
  - intros _ E. rewrite E. exists (mkChunkType (b0, b1, b2, b3)). split; reflexivity.
Qed.

Lemma chunk_type_from_str_spec_witness :
  chunk_type_from_str [x52; x75] = Err ErrTryFromSlice /\
  chunk_type_from_str [x52; x75; x31; x74] = Err ErrInvalidChunkType /\
  (exists ct, chunk_type_from_str [x52; x75; x53; x74] = Ok ct /\
              bytes ct = [x52; x75; x53; x74]).
Proof.
  split; [|split].
  - apply (proj1 (chunk_type_from_str_spec [x52; x75])). discriminate.
  - apply (proj1 (proj2 (chunk_type_from_str_spec [x52; x75; x31; x74])));
      reflexivity.
  - apply (proj2 (proj2 (chunk_type_from_str_spec [x52; x75; x53; x74])));
      reflexivity.
Defined.

(** X2: a chunk type parsed from a string is also accepted by
    [ChunkType::try_from] on its bytes, displays as the string it was
    parsed from, and is valid exactly when its third letter is
    uppercase. *)
Theorem chunk_type_from_str_consistent (s : list byte) (ct : ChunkType) :
  chunk_type_from_str s = Ok ct ->
  chunk_type_try_from (raw ct) = Ok ct /\ chunk_type_display ct = s /\
  is_valid ct = is_ascii_uppercase (nth 2 s x00).
Proof.
  intro H. destruct (from_str_ok s ct H) as [Hl Hb].
  rewrite <- Hb in Hl |- *. pose proof (letters_utf8 _ Hl) as U.
  split; [|split].
  - destruct ct as [r]. apply utf8_type_ok. exact U.
  - apply display_utf8. exact U.
  - rewrite is_valid_letters, Hl. reflexivity.
Qed.

Lemma chunk_type_from_str_consistent_witness :
  chunk_type_from_str [x52; x75; x73; x54] = Ok (mkChunkType (x52, x75, x73, x54)) /\
  chunk_type_try_from (x52, x75, x73, x54) = Ok (mkChunkType (x52, x75, x73, x54)) /\
  chunk_type_display (mkChunkType (x52, x75, x73, x54)) = [x52; x75; x73; x54] /\
  is_valid (mkChunkType (x52, x75, x73, x54)) = false.
Proof.
  assert (H : chunk_type_from_str [x52; x75; x73; x54] = Ok (mkChunkType (x52, x75, x73, x54)))
    by reflexivity.
  split; [exact H|]. apply (chunk_type_from_str_consistent _ _ H).
Defined.

(** X3: a chunk type is valid exactly when its four bytes are ASCII
    letters and the third one is uppercase; a valid chunk type is accepted
    by [ChunkType::try_from]. *)
Theorem is_valid_spec (ct : ChunkType) :
  (is_valid ct = true <->
   forallb is_ascii_letter (bytes ct) = true /\ is_ascii_uppercase (byte_at ct 2) = true) /\
  (is_valid ct = true -> chunk_type_try_from (raw ct) = Ok ct).
Proof.
  rewrite is_valid_letters, andb_true_iff. split; [reflexivity|].
  intros [Hl _]. destruct ct as [r]. apply utf8_type_ok. exact (letters_utf8 _ Hl).
Qed.

Lemma is_valid_spec_witness :
  (forallb is_ascii_letter (bytes RuSt) = true /\ is_ascii_uppercase (byte_at RuSt 2) = true) /\
  chunk_type_try_from (raw RuSt) = Ok RuSt.
Proof.
  assert (H : is_valid RuSt = true) by reflexivity.
  split; [apply (proj1 (proj1 (is_valid_spec RuSt))) | apply (proj2 (is_valid_spec RuSt))];
    exact H.
Defined.

(** X4: on a chunk type made of ASCII letters, each property is the case
    of one letter: critical iff the first is uppercase, public iff the
    second is uppercase, reserved bit valid iff the third is uppercase,
    safe to copy iff the fourth is lowercase. *)
Theorem letter_properties (ct : ChunkType) :
  forallb is_ascii_letter (bytes ct) = true ->
  is_critical ct = is_ascii_uppercase (byte_at ct 0) /\
  is_public ct = is_ascii_uppercase (byte_at ct 1) /\
  is_reserved_bit_valid ct = is_ascii_uppercase (byte_at ct 2) /\
  is_safe_to_copy ct = is_ascii_lowercase (byte_at ct 3).
Proof.
  destruct ct as [[[[b0 b1] b2] b3]].
  unfold is_critical, is_public, is_reserved_bit_valid, is_safe_to_copy.
  cbn [bytes array4_list forallb byte_at raw nth]. rewrite andb_true_r.
  intro H. apply andb_true_iff in H. destruct H as [H0 H].
  apply andb_true_iff in H. destruct H as [H1 H].
  apply andb_true_iff in H. destruct H as [H2 H3].
  split; [|split; [|split]].
  - exact (proj1 (letter_bit5 b0 H0)).
  - exact (proj1 (letter_bit5 b1 H1)).
  - exact (proj1 (letter_bit5 b2 H2)).
  - exact (proj2 (letter_bit5 b3 H3)).
Qed.

Lemma letter_properties_witness :
  forallb is_ascii_letter (bytes (mkChunkType (x62, x4b, x47, x44))) = true /\
  is_critical (mkChunkType (x62, x4b, x47, x44)) = false /\
  is_public (mkChunkType (x62, x4b, x47, x44)) = true /\
  is_reserved_bit_valid (mkChunkType (x62, x4b, x47, x44)) = true /\
  is_safe_to_copy (mkChunkType (x62, x4b, x47, x44)) = false.
Proof.
  assert (H : forallb is_ascii_letter (bytes (mkChunkType (x62, x4b, x47, x44))) = true)
    by reflexivity.
  split; [exact H|]. apply (letter_properties _ H).
Defined.

(** ** Selecting chunks by type *)

Lemma bytes_eqb_length (a b : list byte) : bytes_eqb a b = true -> length a = length b.
Proof. intro H. apply bytes_eqb_eq in H. subst. reflexivity. Qed.

Lemma find_none_forall {A} (f : A -> bool) (l : list A) :
  find f l = None -> Forall (fun x => f x = false) l.
Proof.
  induction l as [|x l IH]; cbn; intro H; [constructor|].
  destruct (f x) eqn:E; [discriminate|]. constructor; [exact E | exact (IH H)].
Qed.

Lemma find_some_split {A} (f : A -> bool) (l : list A) (c : A) :
  find f l = Some c ->
  exists pre post, l = pre ++ c :: post /\ Forall (fun x => f x = false) pre /\ f c = true.
Proof.
  induction l as [|x l IH]; cbn; intro H; [discriminate|].
  destruct (f x) eqn:E.
  - injection H as <-. exists [], l. split; [reflexivity | split; [constructor | exact E]].
  - destruct (IH H) as (pre & post & -> & Hpre & Hc).
    exists (x :: pre), post. split; [reflexivity | split; [constructor; assumption | exact Hc]].
Qed.

Lemma find_app_false {A} (f : A -> bool) (pre post : list A) :
  Forall (fun x => f x = false) pre -> find f (pre ++ post) = find f post.
Proof.
  intro H. induction H as [|x pre Hx _ IH]; cbn; [reflexivity|]. rewrite Hx. exact IH.
Qed.

(** X5: the type test of [remove_chunk] and [chunk_by_type] (the chunk
    type rendered with [Display], compared with the code) accepts a chunk
    exactly when its type bytes are valid UTF-8 and equal the code, or
    they are not valid UTF-8 and the code is ["invalid"].  So a code that
    is neither 4 bytes long nor ["invalid"] is never found, and
    [remove_chunk] then fails with the not-found error. *)
Theorem type_matches_spec (code : list byte) (c : Chunk) :
  (type_matches code c = true <->
   (utf8_valid (bytes (chunk_type c)) = true /\ bytes (chunk_type c) = code) \/
   (utf8_valid (bytes (chunk_type c)) = false /\ code = invalid_text)) /\
  (forall png, length code <> 4%nat -> code <> invalid_text ->
     chunk_by_type png code = None /\ remove_chunk png code = Err (ErrNotFound code)).
Proof.
  assert (Hm : forall (x : Chunk), type_matches code x = true <->
   (utf8_valid (bytes (chunk_type x)) = true /\ bytes (chunk_type x) = code) \/
   (utf8_valid (bytes (chunk_type x)) = false /\ code = invalid_text)).
  { intro x. unfold type_matches, chunk_type_display, from_utf8.
    rewrite bytes_eqb_eq.
    destruct (utf8_valid (bytes (chunk_type x))); split.
    - intro H. left. split; [reflexivity | exact H].
    - intros [[_ H] | [H _]]; [exact H | discriminate].
    - intro H. right. split; [reflexivity | symmetry; exact H].
    - intros [[H _] | [_ H]]; [discriminate | symmetry; exact H]. }
  split; [apply Hm|].
  intros png Hlen Hinv.
  assert (Hf : Forall (fun x => type_matches code x = false) (chunks png)).
  { apply Forall_forall. intros x _.
    destruct (type_matches code x) eqn:E; [|reflexivity].
    apply Hm in E. destruct E as [[_ H] | [_ H]]; [|contradiction].
    rewrite <- H, bytes_length in Hlen. contradiction Hlen. reflexivity. }
  unfold chunk_by_type, remove_chunk.
  rewrite (find_none _ _ Hf), (position_none _ _ Hf). split; reflexivity.
Qed.

Lemma type_matches_spec_witness :
  chunk_by_type (mkPng [mkChunk RuSt [x2a]]) [x52; x75; x53] = None /\
  remove_chunk (mkPng [mkChunk RuSt [x2a]]) [x52; x75; x53] =
    Err (ErrNotFound [x52; x75; x53]).
Proof.
  apply (proj2 (type_matches_spec [x52; x75; x53] (mkChunk RuSt [x2a]))).
  - discriminate.
  - discriminate.
Defined.

(** X6: [remove_chunk] never panics.  It fails with the not-found error
    exactly when [chunk_by_type] finds nothing; otherwise it removes and
    returns the chunk [chunk_by_type] returns, the first match, keeps the
    other chunks in order, and the next [chunk_by_type] on the result
    finds the next match after the removed chunk. *)
Theorem remove_chunk_spec (png : Png) (code : list byte) :
  remove_chunk png code <> Panic /\
  (chunk_by_type png code = None -> remove_chunk png code = Err (ErrNotFound code)) /\
  (forall c, chunk_by_type png code = Some c ->
     exists pre post, chunks png = pre ++ c :: post /\
       Forall (fun x => type_matches code x = false) pre /\
       remove_chunk png code = Ok (c, mkPng (pre ++ post)) /\
       chunk_by_type (mkPng (pre ++ post)) code = find (type_matches code) post).
Proof.
  assert (Hnone : chunk_by_type png code = None ->
                  remove_chunk png code = Err (ErrNotFound code)).
  { unfold chunk_by_type, remove_chunk. intro H.
    rewrite (position_none _ _ (find_none_forall _ _ H)). reflexivity. }
  assert (Hsome : forall c, chunk_by_type png code = Some c ->
     exists pre post, chunks png = pre ++ c :: post /\
       Forall (fun x => type_matches code x = false) pre /\
       remove_chunk png code = Ok (c, mkPng (pre ++ post)) /\
       chunk_by_type (mkPng (pre ++ post)) code = find (type_matches code) post).
  { intros c H. unfold chunk_by_type in H.
    destruct (find_some_split _ _ _ H) as (pre & post & Hl & Hpre & Hc).
    exists pre, post. split; [exact Hl | split; [exact Hpre|]]. split.
    - unfold remove_chunk. rewrite Hl, (position_first _ _ _ _ Hpre Hc),
        vec_remove_middle. reflexivity.
    - unfold chunk_by_type. cbn [chunks]. apply find_app_false. exact Hpre. }
  split; [|split; [exact Hnone | exact Hsome]].
  destruct (chunk_by_type png code) as [c|] eqn:E.
  - destruct (Hsome c eq_refl) as (pre & post & _ & _ & H & _). rewrite H. discriminate.
  - rewrite (Hnone eq_refl). discriminate.
Qed.

Lemma remove_chunk_spec_witness :
  remove_chunk (mkPng [mkChunk RuSt [x01]; mkChunk RuSt [x02]]) [x52; x75; x53; x74] =
    Ok (mkChunk RuSt [x01], mkPng [mkChunk RuSt [x02]]) /\
  chunk_by_type (mkPng [mkChunk RuSt [x02]]) [x52; x75; x53; x74] = Some (mkChunk RuSt [x02]).
Proof.
  destruct (proj2 (proj2 (remove_chunk_spec (mkPng [mkChunk RuSt [x01]; mkChunk RuSt [x02]])
                               [x52; x75; x53; x74])) (mkChunk RuSt [x01]) eq_refl)
    as (pre & post & Hl & _ & H1 & H2).
  destruct pre as [|x pre]; cbn in Hl; [|destruct pre; discriminate].
  injection Hl as <-. split; [exact H1 | exact H2].
Defined.

(** X7: appending a chunk of type [code] to a container in which no chunk
    has that type, then removing [code], returns the appended chunk and
    the container as it was; [chunk_by_type] finds the appended chunk. *)
Theorem append_then_remove (png : Png) (c : Chunk) (code : list byte) :
  chunk_by_type png code = None -> type_matches code c = true ->
  chunk_by_type (append_chunk png c) code = Some c /\
  remove_chunk (append_chunk png c) code = Ok (c, png).
Proof.
  intros Hn Hc. pose proof (find_none_forall _ _ Hn) as Hf.
  unfold chunk_by_type, remove_chunk, append_chunk. cbn [chunks]. split.
  - apply find_first; assumption.
  - rewrite (position_first _ _ [] _ Hf Hc), vec_remove_middle, app_nil_r.
    destruct png. reflexivity.
Qed.

Lemma append_then_remove_witness :
  chunk_by_type (append_chunk (mkPng [mkChunk RuSt [x2a]])
                              (mkChunk (mkChunkType (x49, x45, x4e, x44)) [])) IEND =
    Some (mkChunk (mkChunkType (x49, x45, x4e, x44)) []) /\
  remove_chunk (append_chunk (mkPng [mkChunk RuSt [x2a]])
                             (mkChunk (mkChunkType (x49, x45, x4e, x44)) [])) IEND =
    Ok (mkChunk (mkChunkType (x49, x45, x4e, x44)) [], mkPng [mkChunk RuSt [x2a]]).
Proof. apply append_then_remove; reflexivity. Defined.

(** ** The chunk codec *)

Lemma byte_of_Z_mod (z1 z2 : Z) : z1 mod 256 = z2 mod 256 -> byte_of_Z z1 = byte_of_Z z2.
Proof. intro H. unfold byte_of_Z. rewrite H. reflexivity. Qed.

Lemma u32_range (a : u8x4) : 0 <= u32_from_be_bytes a < 4294967296.
Proof.
  destruct a as [[[b0 b1] b2] b3]. cbn [u32_from_be_bytes].
  pose proof (u8_range b0). pose proof (u8_range b1).
  pose proof (u8_range b2). pose proof (u8_range b3). lia.
Qed.

(** [u32::to_be_bytes] undoes [u32::from_be_bytes]. *)
Lemma be_bytes_from (a : u8x4) : u32_to_be_bytes (u32_from_be_bytes a) = array4_list a.
Proof.
  destruct a as [[[b0 b1] b2] b3]. unfold u32_to_be_bytes. cbn [u32_from_be_bytes array4_list].
  pose proof (u8_range b0) as R0. pose proof (u8_range b1) as R1.
  pose proof (u8_range b2) as R2. pose proof (u8_range b3) as R3.
  rewrite !Z.shiftr_div_pow2 by lia.
  change (2 ^ 24) with 16777216. change (2 ^ 16) with 65536. change (2 ^ 8) with 256.
  f_equal; [|f_equal; [|f_equal; [|f_equal]]].
  - transitivity (byte_of_Z (u8 b0)); [apply byte_of_Z_mod | apply byte_of_Z_u8].
    rewrite <- (Z.div_unique_pos _ 16777216 (u8 b0) (u8 b1 * 65536 + u8 b2 * 256 + u8 b3))
      by lia. reflexivity.
  - transitivity (byte_of_Z (u8 b1)); [apply byte_of_Z_mod | apply byte_of_Z_u8].
    rewrite <- (Z.div_unique_pos _ 65536 (u8 b0 * 256 + u8 b1) (u8 b2 * 256 + u8 b3))
      by lia.
    rewrite <- (Z.mod_unique_pos (u8 b0 * 256 + u8 b1) 256 (u8 b0) (u8 b1)) by lia.
    symmetry; apply Z.mod_small; lia.
  - transitivity (byte_of_Z (u8 b2)); [apply byte_of_Z_mod | apply byte_of_Z_u8].
    rewrite <- (Z.div_unique_pos _ 256 (u8 b0 * 65536 + u8 b1 * 256 + u8 b2) (u8 b3))
      by lia.
    rewrite <- (Z.mod_unique_pos (u8 b0 * 65536 + u8 b1 * 256 + u8 b2) 256
                                 (u8 b0 * 256 + u8 b1) (u8 b2)) by lia.
    symmetry; apply Z.mod_small; lia.
  - transitivity (byte_of_Z (u8 b3)); [apply byte_of_Z_mod | apply byte_of_Z_u8].
    rewrite <- (Z.mod_unique_pos _ 256 (u8 b0 * 65536 + u8 b1 * 256 + u8 b2) (u8 b3))
      by lia. symmetry; apply Z.mod_small; lia.
Qed.

(** A buffer with room for [n] data bytes and a checksum field. *)
Lemma rest_split (n : nat) (rest : list byte) :
  (n + 4 <= length rest)%nat ->
  exists cb tl, rest = firstn n rest ++ array4_list cb ++ tl /\ length (firstn n rest) = n.
Proof.
  intro H. pose proof (length_skipn n rest) as L.
  destruct (skipn n rest) as [|c0 [|c1 [|c2 [|c3 tl]]]] eqn:E; cbn [length] in L;
    try lia.
  exists (c0, c1, c2, c3), tl. split.
  - rewrite <- (firstn_skipn n rest) at 1. rewrite E. reflexivity.
  - apply firstn_length_le. lia.
Qed.

(** A successful decode read exactly the encoding of the chunk it
    returns, and that chunk satisfies the invariant. *)
Lemma decode_inv (v : list byte) (c : Chunk) :
  chunk_try_from v = Ok c -> chunk_ok c /\ exists rest, v = chunk_encoding c ++ rest.
Proof.
  intro H.
  destruct v as [|b0 [|b1 [|b2 [|b3 [|b4 [|b5 [|b6 [|b7 rest]]]]]]]];
    try (rewrite chunk_try_from_short in H by (cbn; lia); discriminate).
  change (b0 :: b1 :: b2 :: b3 :: b4 :: b5 :: b6 :: b7 :: rest)
    with (array4_list (b0, b1, b2, b3) ++ array4_list (b4, b5, b6, b7) ++ rest) in H |- *.
  destruct (utf8_valid (array4_list (b4, b5, b6, b7))) eqn:U.
  2: { rewrite chunk_try_from_header in H. unfold chunk_type_try_from, from_utf8 in H.
       rewrite U in H. discriminate. }
  destruct (Nat.ltb_spec (length rest) (Z.to_nat (u32_from_be_bytes (b0, b1, b2, b3)) + 4)).
  { rewrite chunk_try_from_overlong in H by assumption. discriminate. }
  destruct (rest_split (Z.to_nat (u32_from_be_bytes (b0, b1, b2, b3))) rest ltac:(lia))
    as (cb & tl & Hr & Hd).
  rewrite Hr in H |- *.
  rewrite (chunk_try_from_layout _ _ _ _ _ Hd) in H. rewrite U in H.
  pose proof (u32_range (b0, b1, b2, b3)) as R.
  remember (firstn (Z.to_nat (u32_from_be_bytes (b0, b1, b2, b3))) rest) as d eqn:Ed.
  clear Ed Hr.
  destruct (Z.eqb_spec (u32_from_be_bytes cb) (chunk_crc (mkChunk (mkChunkType (b4, b5, b6, b7)) d)))
    as [Hcrc|]; [|discriminate].
  injection H as <-.
  split.
  - split; [exact U|]. change (Z.of_nat (length d) < 4294967296). rewrite Hd. lia.
  - exists tl. unfold chunk_encoding. cbn [data chunk_type bytes raw].
    rewrite Hd, Z2Nat.id by lia. rewrite <- Hcrc, !be_bytes_from.
    rewrite <- !app_assoc. reflexivity.
Qed.

Lemma chunk_as_bytes_spec (c : Chunk) :
  chunk_as_bytes c =
  if Z.of_nat (length (data c)) <? 4294967296 then Ok (chunk_encoding c) else Panic.
Proof.
  unfold chunk_as_bytes, chunk_length.
  destruct (Z.of_nat (length (data c)) <? 4294967296); reflexivity.
Qed.

(** X8: a chunk whose type is valid UTF-8 and whose data has fewer than
    2^32 bytes encodes to [data length + 12] bytes, and decoding those
    bytes, followed by anything, gives the chunk back. *)
Theorem chunk_encode_decode (c : Chunk) :
  chunk_ok c ->
  exists b, chunk_as_bytes c = Ok b /\ length b = (length (data c) + 12)%nat /\
            forall tl, chunk_try_from (b ++ tl) = Ok c.
Proof.
  intro Hc. exists (chunk_encoding c). split; [exact (chunk_as_bytes_ok c Hc)|].
  split; [apply chunk_encoding_length|].
  intro tl. exact (chunk_try_from_encoding c tl Hc).
Qed.

Lemma chunk_encode_decode_witness :
  exists b, chunk_as_bytes (mkChunk RuSt [x2a]) = Ok b /\ length b = 13%nat /\
            forall tl, chunk_try_from (b ++ tl) = Ok (mkChunk RuSt [x2a]).
Proof.
  apply (chunk_encode_decode (mkChunk RuSt [x2a])).
  split; vm_compute; reflexivity.
Defined.

(** X9: when [Chunk::try_from] succeeds, the chunk it returns encodes
    with [Chunk::as_bytes] to a prefix of the input, so the decoder reads
    nothing past that prefix: appending bytes to the input gives the same
    chunk. *)
Theorem chunk_decode_encode (v : list byte) (c : Chunk) :
  chunk_try_from v = Ok c ->
  (exists b rest, chunk_as_bytes c = Ok b /\ v = b ++ rest) /\
  forall tl, chunk_try_from (v ++ tl) = Ok c.
Proof.
  intro H. destruct (decode_inv v c H) as [Hc [rest Hv]]. split.
  - exists (chunk_encoding c), rest. split; [exact (chunk_as_bytes_ok c Hc) | exact Hv].
  - intro tl. rewrite Hv, <- app_assoc. exact (chunk_try_from_encoding c _ Hc).
Qed.

Lemma chunk_decode_encode_witness :
  (exists b rest, chunk_as_bytes (mkChunk (mkChunkType (x49, x45, x4e, x44)) []) = Ok b /\
     [x00; x00; x00; x00; x49; x45; x4e; x44; xae; x42; x60; x82; x07] = b ++ rest) /\
  forall tl, chunk_try_from ([x00; x00; x00; x00; x49; x45; x4e; x44; xae; x42; x60; x82; x07]
                             ++ tl) = Ok (mkChunk (mkChunkType (x49, x45, x4e, x44)) []).
Proof. apply chunk_decode_encode. vm_compute. reflexivity. Defined.

(** X10: on a buffer whose first 8 bytes are a length [lb] and a type
    [tb], [Chunk::try_from] fails with the UTF-8 error when the type is
    not valid UTF-8, whatever follows (even too few bytes); and it panics
    exactly when the type is valid UTF-8 and fewer bytes follow than the
    declared data length plus the 4 checksum bytes. *)
Theorem chunk_try_from_outcome (lb tb : u8x4) (rest : list byte) :
  (utf8_valid (array4_list tb) = false ->
   chunk_try_from (array4_list lb ++ array4_list tb ++ rest) = Err ErrUtf8) /\
  (chunk_try_from (array4_list lb ++ array4_list tb ++ rest) = Panic <->
   utf8_valid (array4_list tb) = true /\
   (length rest < Z.to_nat (u32_from_be_bytes lb) + 4)%nat).
Proof.
  assert (Hbad : utf8_valid (array4_list tb) = false ->
                 chunk_try_from (array4_list lb ++ array4_list tb ++ rest) = Err ErrUtf8).
  { intro U. rewrite chunk_try_from_header. unfold chunk_type_try_from, from_utf8.
    rewrite U. reflexivity. }
  split; [exact Hbad|]. split.
  - intro H. destruct (utf8_valid (array4_list tb)) eqn:U.
    2: { rewrite (Hbad eq_refl) in H. discriminate. }
    split; [reflexivity|].
    destruct (Nat.ltb_spec (length rest) (Z.to_nat (u32_from_be_bytes lb) + 4)) as [|Hge];
      [assumption|].
    destruct (rest_split _ rest Hge) as (cb & tl & Hr & Hd).
    rewrite Hr, (chunk_try_from_layout _ _ _ _ _ Hd), U in H.
    destruct (_ =? _); discriminate.
  - intros [U Hlt]. apply chunk_try_from_overlong; assumption.
Qed.

Lemma chunk_try_from_outcome_witness :
  chunk_try_from (array4_list (x00, x00, x00, x05) ++ array4_list (xff, x41, x41, x41) ++ []) =
    Err ErrUtf8 /\
  chunk_try_from (array4_list (x00, x00, x00, x05) ++ array4_list (x49, x48, x44, x52)
                  ++ [x01; x02]) = Panic.
Proof.
  split.
  - apply (proj1 (chunk_try_from_outcome (x00, x00, x00, x05) (xff, x41, x41, x41) [])).
    reflexivity.
  - apply (proj2 (chunk_try_from_outcome (x00, x00, x00, x05) (x49, x48, x44, x52)
                    [x01; x02])).
    split; [reflexivity | cbn; lia].
Defined.

(** ** The container *)

Lemma png_loop_not_err (fuel : nat) (value : list byte) (index : nat) (png : Png) (e : error) :
  png_loop fuel value index png <> Err e.
Proof.
  revert index png. induction fuel as [|fuel IH]; intros index png; cbn [png_loop];
    [discriminate|].
  unfold slice_from. destruct (Nat.leb index (length value)); cbn [bind]; [|discriminate].
  destruct (chunk_try_from (skipn index value)) as [c| |]; [|discriminate|discriminate].
  unfold chunk_length. destruct (_ <? 4294967296); cbn [bind]; [|discriminate].
  destruct (bytes_eqb _ IEND); [discriminate | apply IH].
Qed.

(** What the loop returns: the chunks it started with, then decoded
    chunks of which only the last may be an [IEND] chunk, whose encodings
    lie back to back from the cursor. *)
Lemma png_loop_ok (fuel : nat) (value : list byte) (index : nat) (png p : Png) :
  png_loop fuel value index png = Ok p ->
  exists cs tl rest, chunks p = chunks png ++ cs ++ tl /\
    Forall chunk_ok (cs ++ tl) /\ Forall (fun c => is_iend c = false) cs /\
    (tl = [] \/ exists c, tl = [c] /\ is_iend c = true) /\
    skipn index value = concat (map chunk_encoding (cs ++ tl)) ++ rest.
Proof.
  revert index png. induction fuel as [|fuel IH]; intros index png H; cbn [png_loop] in H;
    [discriminate|].
  unfold slice_from in H.
  destruct (Nat.leb_spec index (length value)) as [Hle|]; cbn [bind] in H; [|discriminate].
  destruct (chunk_try_from (skipn index value)) as [c| |] eqn:Ec; [| |discriminate].
  - destruct (decode_inv _ _ Ec) as [Hc [r Hr]].
    rewrite (chunk_length_ok c Hc) in H. cbn [bind] in H. rewrite Nat2Z.id in H.
    change (bytes_eqb (chunk_type_display (chunk_type c)) IEND) with (is_iend c) in H.
    destruct (is_iend c) eqn:Ei.
    + injection H as <-. exists [], [c], r. cbn [app chunks append_chunk].
      split; [reflexivity|]. split; [constructor; [exact Hc | constructor]|].
      split; [constructor|]. split; [right; exists c; split; [reflexivity | exact Ei]|].
      cbn [map concat]. rewrite app_nil_r. exact Hr.
    + destruct (IH _ _ H) as (cs & tl & rest & H1 & H2 & H3 & H4 & H5).
      exists (c :: cs), tl, rest. cbn [chunks append_chunk] in H1.
      split; [rewrite H1, <- app_assoc; reflexivity|].
      split; [constructor; assumption|]. split; [constructor; assumption|].
      split; [exact H4|].
      destruct (skipn_encoding_next _ _ _ _ Hr) as [Hn _]. rewrite Hn in H5.
      rewrite Hr, H5. cbn [app map concat]. rewrite <- app_assoc. reflexivity.
  - injection H as <-. exists [], [], (skipn index value).
    split; [cbn; rewrite app_nil_r; reflexivity|].
    split; [constructor|]. split; [constructor|]. split; [left; reflexivity|].
    reflexivity.
Qed.

Lemma png_try_from_ok (value : list byte) (p : Png) :
  png_try_from value = Ok p ->
  exists cs tl rest, chunks p = cs ++ tl /\
    Forall chunk_ok (cs ++ tl) /\ Forall (fun c => is_iend c = false) cs /\
    (tl = [] \/ exists c, tl = [c] /\ is_iend c = true) /\
    value = STANDARD_HEADER ++ concat (map chunk_encoding (cs ++ tl)) ++ rest.
Proof.
  unfold png_try_from, slice. intro H.
  destruct (Nat.leb 8 (length value)) eqn:L; cbn [andb Nat.leb bind] in H; [|discriminate].
  cbn [Nat.sub skipn] in H.
  destruct (bytes_eqb (firstn 8 value) STANDARD_HEADER) eqn:E; cbn [negb] in H;
    [|discriminate].
  apply bytes_eqb_eq in E.
  destruct (png_loop_ok _ _ _ _ _ H) as (cs & tl & rest & H1 & H2 & H3 & H4 & H5).
  exists cs, tl, rest. split; [exact H1|]. split; [exact H2|]. split; [exact H3|].
  split; [exact H4|].
  rewrite <- (firstn_skipn 8 value), E, H5. reflexivity.
Qed.

(** X11: [Png::try_from] never reports an error from a chunk: its only
    error is the signature error, returned when the buffer has at least 8
    bytes and they are not the PNG signature. *)
Theorem png_try_from_only_signature_error (value : list byte) (e : error) :
  png_try_from value = Err e ->
  (8 <= length value)%nat /\ firstn 8 value <> STANDARD_HEADER /\
  e = ErrSignature (firstn 8 value).
Proof.
  unfold png_try_from, slice. intro H.
  destruct (Nat.leb_spec 8 (length value)) as [L|]; cbn [andb Nat.leb bind] in H;
    [|discriminate].
  cbn [Nat.sub skipn] in H.
  destruct (bytes_eqb (firstn 8 value) STANDARD_HEADER) eqn:E; cbn [negb] in H.
  - apply png_loop_not_err in H. contradiction.
  - injection H as <-. split; [exact L|]. split; [|reflexivity].
    intro Heq. rewrite Heq, bytes_eqb_refl in E. discriminate.
Qed.

Lemma png_try_from_only_signature_error_witness :
  (8 <= length [x89; x50; x4e; x47; x0d; x0a; x1a; x00])%nat /\
  firstn 8 [x89; x50; x4e; x47; x0d; x0a; x1a; x00] <> STANDARD_HEADER /\
  ErrSignature [x89; x50; x4e; x47; x0d; x0a; x1a; x00] =
    ErrSignature (firstn 8 [x89; x50; x4e; x47; x0d; x0a; x1a; x00]).
Proof.
  apply png_try_from_only_signature_error. vm_compute. reflexivity.
Defined.

(** X12: when [Png::try_from] succeeds, serializing the result with
    [Png::as_bytes] succeeds and gives a prefix of the input: the parser
    read the signature and then exactly the encodings of the chunks it
    returns, back to back. *)
Theorem png_parse_prefix (value : list byte) (p : Png) :
  png_try_from value = Ok p ->
  exists b rest, png_as_bytes p = Ok b /\ value = b ++ rest.
Proof.
  intro H. destruct (png_try_from_ok _ _ H) as (cs & tl & rest & H1 & H2 & _ & _ & H5).
  exists (STANDARD_HEADER ++ concat (map chunk_encoding (cs ++ tl))), rest. split.
  - destruct p as [pcs]. cbn [chunks] in H1. subst pcs. apply png_as_bytes_ok. exact H2.
  - rewrite H5, <- app_assoc. reflexivity.
Qed.

Lemma png_parse_prefix_witness :
  exists b rest, png_as_bytes (mkPng [mkChunk RuSt [x2a]]) = Ok b /\
    STANDARD_HEADER ++ [x00; x00; x00; x01; x52; x75; x53; x74; x2a; x26; x02; xde; xd5;
                        x00; x00; x00; x00; x49; x45; x4e; x44; x00; x00; x00; x00] =
    b ++ rest.
Proof.
  apply (png_parse_prefix _ (mkPng [mkChunk RuSt [x2a]])). vm_compute. reflexivity.
Defined.

(** X13: every chunk of a container returned by [Png::try_from] has a
    type that is valid UTF-8 and fewer than 2^32 data bytes, and no chunk
    other than the last one has a type rendering as ["IEND"]. *)
Theorem png_parse_invariant (value : list byte) (p : Png) :
  png_try_from value = Ok p ->
  Forall chunk_ok (chunks p) /\
  exists cs tl, chunks p = cs ++ tl /\ Forall (fun c => is_iend c = false) cs /\
    (tl = [] \/ exists c, tl = [c] /\ is_iend c = true).
Proof.
  intro H. destruct (png_try_from_ok _ _ H) as (cs & tl & rest & H1 & H2 & H3 & H4 & _).
  rewrite H1. split; [exact H2|]. exists cs, tl. split; [reflexivity|]. split; assumption.
Qed.

Lemma png_parse_invariant_witness :
  Forall chunk_ok [mkChunk RuSt [x2a]; mkChunk (mkChunkType (x49, x45, x4e, x44)) []] /\
  exists cs tl, [mkChunk RuSt [x2a]; mkChunk (mkChunkType (x49, x45, x4e, x44)) []] = cs ++ tl /\
    Forall (fun c => is_iend c = false) cs /\
    (tl = [] \/ exists c, tl = [c] /\ is_iend c = true).
Proof.
  apply (png_parse_invariant
           (STANDARD_HEADER ++ [x00; x00; x00; x01; x52; x75; x53; x74; x2a;
                                x26; x02; xde; xd5; x00; x00; x00; x00;
                                x49; x45; x4e; x44; xae; x42; x60; x82])
           (mkPng [mkChunk RuSt [x2a]; mkChunk (mkChunkType (x49, x45, x4e, x44)) []])).
  vm_compute. reflexivity.
Defined.

Lemma png_as_bytes_fold (cs : list Chunk) (acc : list byte) :
  fold_left (fun acc c => b <- acc ;; cb <- chunk_as_bytes c ;; Ok (b ++ cb)) cs (Ok acc) =
  if forallb (fun c => Z.of_nat (length (data c)) <? 4294967296) cs
  then Ok (acc ++ concat (map chunk_encoding cs)) else Panic.
Proof.
  assert (Hp : forall cs, fold_left (fun acc c => b <- acc ;; cb <- chunk_as_bytes c ;;
                                                  Ok (b ++ cb)) cs Panic = Panic).
  { intro l. induction l as [|x l IH]; [reflexivity|]. exact IH. }
  revert acc. induction cs as [|c cs IH]; intro acc; cbn [fold_left forallb].
  - rewrite app_nil_r. reflexivity.
  - cbn [bind]. rewrite chunk_as_bytes_spec.
    destruct (Z.of_nat (length (data c)) <? 4294967296); cbn [bind andb].
    + rewrite IH. cbn [map concat]. rewrite app_assoc. reflexivity.
    + apply Hp.
Qed.

(** X14: [Png::as_bytes] never returns an error value: it panics exactly
    when some chunk holds 2^32 data bytes or more, and otherwise gives the
    signature followed by each chunk's [Chunk::as_bytes] in order.  So
    appending a chunk appends its encoding. *)
Theorem png_as_bytes_spec (png : Png) (c : Chunk) :
  png_as_bytes png =
    (if forallb (fun c => Z.of_nat (length (data c)) <? 4294967296) (chunks png)
     then Ok (STANDARD_HEADER ++ concat (map chunk_encoding (chunks png))) else Panic) /\
  png_as_bytes (append_chunk png c) =
    (b <- png_as_bytes png ;; cb <- chunk_as_bytes c ;; Ok (b ++ cb)).
Proof.
  split.
  - apply png_as_bytes_fold.
  - unfold png_as_bytes, append_chunk. cbn [chunks]. rewrite fold_left_app. reflexivity.
Qed.

Lemma png_display_fold (cs : list Chunk) (acc : list byte) :
  fold_left (fun display c => display ++ (chunk_type_display (chunk_type c) ++ CRLF)) cs acc =
  acc ++ concat (map (fun c => chunk_type_display (chunk_type c) ++ CRLF) cs).
Proof.
  revert acc. induction cs as [|c cs IH]; intro acc; cbn [fold_left map concat].
  - rewrite app_nil_r. reflexivity.
  - rewrite IH, !app_assoc. reflexivity.
Qed.

(** X15: [Display for Png] writes, for each chunk in order, its type as
    [Display for ChunkType] renders it followed by ["\r\n"]; for chunk
    types that are valid UTF-8 that is the four type bytes. *)
Theorem png_display_spec (png : Png) :
  png_display png = concat (map (fun c => chunk_type_display (chunk_type c) ++ CRLF) (chunks png)) /\
  (Forall (fun c => utf8_valid (bytes (chunk_type c)) = true) (chunks png) ->
   png_display png = concat (map (fun c => bytes (chunk_type c) ++ CRLF) (chunks png))).
Proof.
  assert (H : png_display png =
              concat (map (fun c => chunk_type_display (chunk_type c) ++ CRLF) (chunks png))).
  { unfold png_display. rewrite png_display_fold. reflexivity. }
  split; [exact H|]. intro Hu. rewrite H. f_equal. apply map_ext_in.
  intros c Hc. rewrite Forall_forall in Hu. rewrite (display_utf8 _ (Hu c Hc)). reflexivity.
Qed.

Lemma png_display_spec_witness :
  png_display (mkPng [mkChunk RuSt [x2a]; mkChunk (mkChunkType (x49, x45, x4e, x44)) []]) =
  [x52; x75; x53; x74; x0d; x0a; x49; x45; x4e; x44; x0d; x0a].
Proof.
  refine (eq_trans (proj2 (png_display_spec _) _) eq_refl).
  repeat constructor.
Defined.
